(** * k2basecamp: the asynchronous task-dispatch engine

    A shallow embedding of
      - [services/motion_controller_thread.py]  (class MotionControllerThread)
      - [services/motion_controller_service.py] (class MotionControllerService)
    and the properties of the dispatch engine stated over it.

    The worker thread, the submitting contexts and the service's own thread
    run concurrently; they are modelled as an interleaving of atomic steps
    (one [label] per step) over a single [system] state.  Wall-clock time is
    a counter of ticks that only the environment advances. *)

From Stdlib Require Import ZArith List String Ascii Bool Lia.
From stdpp Require Import base option list strings pretty gmap.
Import ListNotations.

Local Open Scope string_scope.
Local Open Scope Z_scope.
Local Open Scope list_scope.

(** ** Python values, exceptions and results *)

Module Py.

(** [utils.enums.Drive], with the two members the service uses
    ([Drive.Left], [Drive.Right]). *)
Inductive Drive := Left | Right.

(** The objects that travel through the engine.  [PyFunction] stands for a
    function or bound method (it carries [__qualname__]), [PyPartial] for a
    [functools.partial] object over such a function (no [__qualname__] of its
    own, but a [func] that has one), [PyObject] for any other opaque object
    (among them the instances of classes with [__call__], which can be
    called and have no [__qualname__]). *)
Inductive pyvalue :=
| PyNone
| PyBool (b : bool)
| PyInt (z : Z)
| PyStr (s : string)
| PyDrive (d : Drive)
| PyFunction (qualname : string)
| PyPartial (func_qualname : string)
| PyObject (repr : string).

(** Exception classes: the built-in hierarchy as far as the engine meets it,
    the two SDK roots [ingeniamotion.exceptions.IMException] and
    [ingenialink.exceptions.ILError] (both derive from [Exception]), and
    [Subclass name bases] for a class declared as [class name(b1, ..., bn)]
    over classes of this type, with one base or several. *)
#[warnings="-register-all"]
Inductive exc_class :=
| BaseException
| KeyboardInterrupt
| SystemExit
| Exception
| ArithmeticError
| ZeroDivisionError
| AttributeError
| LookupError
| IndexError
| KeyError
| OSError
| FileNotFoundError
| ConnectionError
| ConnectionResetError
| TimeoutError
| RuntimeError
| TypeError
| ValueError
| UnicodeError
| IMException
| ILError
| Subclass (name : string) (bases : list exc_class).

#[global] Instance exc_class_eq_dec : EqDecision exc_class.
Proof.
  unfold EqDecision. fix go 1. intros c d.
  destruct c as [| | | | | | | | | | | | | | | | | | | | |n bs],
           d as [| | | | | | | | | | | | | | | | | | | | |m ds];
    try (right; discriminate); try (left; reflexivity).
  destruct (decide (n = m)) as [->|]; [| right; congruence].
  destruct (@list_eq_dec _ go bs ds) as [->|]; [by left | right; congruence].
Defined.

(** The classes of the method resolution order of a class: itself, then
    those of each of its bases in turn.  (Python's [__mro__] lists the same
    classes, each once; [issubclass] only asks whether a class is there.) *)
Fixpoint mro (c : exc_class) : list exc_class :=
  match c with
  | BaseException => [BaseException]
  | KeyboardInterrupt => [KeyboardInterrupt; BaseException]
  | SystemExit => [SystemExit; BaseException]
  | Exception => [Exception; BaseException]
  | ArithmeticError => [ArithmeticError; Exception; BaseException]
  | ZeroDivisionError =>
      [ZeroDivisionError; ArithmeticError; Exception; BaseException]
  | AttributeError => [AttributeError; Exception; BaseException]
  | LookupError => [LookupError; Exception; BaseException]
  | IndexError => [IndexError; LookupError; Exception; BaseException]
  | KeyError => [KeyError; LookupError; Exception; BaseException]
  | OSError => [OSError; Exception; BaseException]
  | FileNotFoundError => [FileNotFoundError; OSError; Exception; BaseException]
  | ConnectionError => [ConnectionError; OSError; Exception; BaseException]
  | ConnectionResetError =>
      [ConnectionResetError; ConnectionError; OSError; Exception; BaseException]
  | TimeoutError => [TimeoutError; OSError; Exception; BaseException]
  | RuntimeError => [RuntimeError; Exception; BaseException]
  | TypeError => [TypeError; Exception; BaseException]
  | ValueError => [ValueError; Exception; BaseException]
  | UnicodeError => [UnicodeError; ValueError; Exception; BaseException]
  | IMException => [IMException; Exception; BaseException]
  | ILError => [ILError; Exception; BaseException]
  | Subclass n bs => Subclass n bs :: flat_map mro bs
  end.

Definition issubclass (c d : exc_class) : bool := bool_decide (d ∈ mro c).

Record pyexception := { exc_type : exc_class; exc_msg : string }.

(** [isinstance(e, (c1, ..., cn))]. *)
Definition isinstance (e : pyexception) (cs : list exc_class) : bool :=
  existsb (issubclass (exc_type e)) cs.

(** The outcome of a call: it returns a value or raises. *)
Inductive result (A : Type) :=
| Returns (a : A)
| Raises (e : pyexception).
Arguments Returns {A} a.
Arguments Raises {A} e.

(** Keyword arguments, in the order they were passed. *)
Definition kwargs_t := list (string * pyvalue).

(** An operation handed to the engine.  The engine treats it as a black box:
    all it observes is whether the call returns or raises. *)
Definition Action := list pyvalue -> kwargs_t -> result pyvalue.

(** [str.split(".")]: the pieces between the dots, empty pieces included. *)
Fixpoint split_dot (s : string) : list string :=
  match s with
  | EmptyString => [EmptyString]
  | String c rest =>
      if Ascii.eqb c "."%char then EmptyString :: split_dot rest
      else match split_dot rest with
           | p :: ps => String c p :: ps
           | [] => [String c EmptyString]
           end
  end.

End Py.
Export Py.

(** ** The dispatch worker: [MotionControllerThread] *)

Module Worker.

(** [utils.types.motion_controller_task], built by [MotionControllerService.run]
    with the keywords [action], [callback], [args], [kwargs]. *)
Record motion_controller_task := {
  action : Action;
  callback : pyvalue;
  args : list pyvalue;
  kwargs : kwargs_t
}.

(** Modelled from the spec: the record [thread_report] is declared in
    [utils/types.py], which is not among the sources.  Its six fields are
    those of the spec's Report, in the order in which [run] passes them. *)
Record thread_report := {
  subject : option Drive;
  operation_name : string;
  output : pyvalue;
  timestamp : Z;
  duration : Z;
  error : option pyexception
}.

(** What the worker sends out: the two signals and the error-level log. *)
Inductive event :=
| task_completed (cb : pyvalue) (r : thread_report)
| task_errored (r : thread_report)
| log_error (r : thread_report).

(** Where the thread is in [run].  [Idle]: constructed; [Started]: [start]
    was called and [run] has not executed its first statement; [LoopHead]:
    about to test [while self.__running]; [AtGet]: about to call
    [self.queue.get()]; [Executing]: the task was dequeued, its timestamp
    taken and its action is in flight; [Exited]: the loop was left;
    [Crashed]: an exception left [run]. *)
Inductive location :=
| Idle
| Started
| LoopHead
| AtGet
| Executing (t : motion_controller_task) (timestamp : Z)
| Exited
| Crashed (t : motion_controller_task) (e : pyexception).

(** The thread object.  [running] is [self.__running]; [queue] and
    [unfinished] are the items and the unfinished-task counter of
    [self.queue].  The last three fields are history only: every item ever
    put, every item ever returned by [get], every task reported. *)
Record thread := {
  running : bool;
  queue : list (option motion_controller_task);
  unfinished : nat;
  pc : location;
  puts : list (option motion_controller_task);
  taken : list (option motion_controller_task);
  reported : list (motion_controller_task * thread_report)
}.

(** [__init__] *)
Definition init : thread :=
  {| running := false; queue := []; unfinished := 0%nat; pc := Idle;
     puts := []; taken := []; reported := [] |}.

(** [QThread.start]: one start per instance. *)
Definition start (th : thread) : thread :=
  match pc th with
  | Idle =>
      {| running := running th; queue := queue th; unfinished := unfinished th;
         pc := Started;
         puts := puts th; taken := taken th; reported := reported th |}
  | _ => th
  end.

Definition goto (l : location) (th : thread) : thread :=
  {| running := running th; queue := queue th; unfinished := unfinished th;
     pc := l;
     puts := puts th; taken := taken th; reported := reported th |}.

Definition set_running (b : bool) (th : thread) : thread :=
  {| running := b; queue := queue th; unfinished := unfinished th;
     pc := pc th;
     puts := puts th; taken := taken th; reported := reported th |}.

(** [self.queue.put(item)] *)
Definition put (item : option motion_controller_task) (th : thread) : thread :=
  {| running := running th; queue := queue th ++ [item];
     unfinished := S (unfinished th);
     pc := pc th;
     puts := puts th ++ [item]; taken := taken th; reported := reported th |}.

(** [self.queue.task_done()] *)
Definition task_done (th : thread) : thread :=
  {| running := running th; queue := queue th;
     unfinished := Nat.pred (unfinished th);
     pc := pc th;
     puts := puts th; taken := taken th; reported := reported th |}.

Definition record_report (t : motion_controller_task) (r : thread_report)
    (th : thread) : thread :=
  {| running := running th; queue := queue th; unfinished := unfinished th;
     pc := pc th;
     puts := puts th; taken := taken th;
     reported := reported th ++ [(t, r)] |}.

(** The exception classes named by the [except] clause of [run]. *)
Definition DOMAIN_FAILURES : list exc_class :=
  [IMException; ILError; ValueError; KeyError; FileNotFoundError;
   ConnectionError].

(** The [try] statement of [run]: the output and the caught exception, or
    the exception that the [except] clause lets through. *)
Definition try_action (t : motion_controller_task)
    : result (pyvalue * option pyexception) :=
  match action t (args t) (kwargs t) with
  | Returns v => Returns (v, None)
  | Raises e =>
      if isinstance e DOMAIN_FAILURES then Returns (PyNone, Some e)
      else Raises e
  end.

(** [task.callback.func.__qualname__] for a partial, [task.callback.__qualname__]
    otherwise; an object without that attribute raises [AttributeError]. *)
Definition func_name (cb : pyvalue) : result string :=
  match cb with
  | PyPartial q => Returns q
  | PyFunction q => Returns q
  | _ => Raises {| exc_type := AttributeError; exc_msg := "__qualname__" |}
  end.

(** The search for the drive among the positional arguments. *)
Fixpoint find_drive (l : list pyvalue) : option Drive :=
  match l with
  | [] => None
  | PyDrive d :: _ => Some d
  | _ :: rest => find_drive rest
  end.

(** The signals and log entries that go with one report. *)
Definition events_of (t : motion_controller_task) (r : thread_report)
    : list event :=
  match error r with
  | None => [task_completed (callback t) r]
  | Some _ => [log_error r; task_errored r]
  end.

(** The body of the loop from the [try] statement on, for the task [t]
    dequeued at time [ts]; [now] is the clock when the action is over. *)
Definition loop_body (now : Z) (t : motion_controller_task) (ts : Z)
    (th : thread) : thread * list event :=
  match try_action t with
  | Raises e => (goto (Crashed t e) th, [])
  | Returns (out, raised_exception) =>
      match func_name (callback t) with
      | Raises e => (goto (Crashed t e) th, [])
      | Returns name =>
          let report :=
            {| subject := find_drive (args t); operation_name := name;
               output := out; timestamp := ts; duration := now - ts;
               error := raised_exception |} in
          (goto LoopHead (task_done (record_report t report th)),
           events_of t report)
      end
  end.

(** [task = self.queue.get()], the test for the sentinel and the timestamp.
    On an empty queue the call blocks: the thread does not move. *)
Definition queue_get (now : Z) (th : thread) : thread :=
  match queue th with
  | [] => th
  | item :: q =>
      {| running := running th; queue := q; unfinished := unfinished th;
         pc := match item with
               | None => Exited
               | Some t => Executing t now
               end;
         puts := puts th; taken := taken th ++ [item];
         reported := reported th |}
  end.

(** One step of the thread in [run]. *)
Definition step (now : Z) (th : thread) : thread * list event :=
  match pc th with
  | Idle => (th, [])
  | Started => (goto LoopHead (set_running true th), [])
  | LoopHead => (goto (if running th then AtGet else Exited) th, [])
  | AtGet => (queue_get now th, [])
  | Executing t ts => loop_body now t ts th
  | Exited => (th, [])
  | Crashed _ _ => (th, [])
  end.

(** The two statements of [stop], and [stop] when nothing runs in between. *)
Definition stop_flag (th : thread) : thread := set_running false th.
Definition stop_put (th : thread) : thread := put None th.
Definition stop (th : thread) : thread := stop_put (stop_flag th).

(** [QThread.isFinished] *)
Definition finished (th : thread) : bool :=
  match pc th with
  | Exited | Crashed _ _ => true
  | _ => false
  end.

(** The tasks the thread has started to execute, in order. *)
Definition executed (th : thread) : list motion_controller_task :=
  omap id (taken th).

(** The tasks put on the queue strictly before the first sentinel. *)
Fixpoint before_sentinel (l : list (option motion_controller_task))
    : list motion_controller_task :=
  match l with
  | Some t :: rest => t :: before_sentinel rest
  | _ => []
  end.

(** The task in flight, or the one whose exception ended the thread. *)
Definition unreported (l : location) : list motion_controller_task :=
  match l with
  | Executing t _ => [t]
  | Crashed t _ => [t]
  | _ => []
  end.

End Worker.

(** ** The dispatch service: [MotionControllerService] *)

Module Service.
Import Worker.

(** Modelled from the spec: [PollerThread] lives in
    [services/poller_thread.py], which is not among the sources.  The service
    needs its constructor, [isRunning()] and [stop()]; a poller that was
    stopped is no longer running.  The two periods the constructor takes
    ([sampling_time], [refresh_time]) are floats that the service only
    passes on; they are left out. *)
Record PollerThread := {
  alias : string;
  registers : list pyvalue;
  buffer_size : Z;
  isRunning : bool
}.

Definition PollerThread_start (p : PollerThread) : PollerThread :=
  {| alias := alias p; registers := registers p;
     buffer_size := buffer_size p; isRunning := true |}.

Definition PollerThread_stop (p : PollerThread) : PollerThread :=
  {| alias := alias p; registers := registers p;
     buffer_size := buffer_size p; isRunning := false |}.

(** The service object: the SDK handle [__mc] as the table of its command
    groups and their methods, the pollers by alias, and the worker thread. *)
Record service := {
  mc : gmap string (gmap string Action);
  poller_threads : gmap string PollerThread;
  motion_controller_thread : thread
}.

(** [__init__]: the worker is created and started. *)
Definition new (sdk : gmap string (gmap string Action)) : service :=
  {| mc := sdk; poller_threads := ∅;
     motion_controller_thread := start init |}.

Definition with_thread (th : thread) (self : service) : service :=
  {| mc := mc self; poller_threads := poller_threads self;
     motion_controller_thread := th |}.

Definition with_pollers (ps : gmap string PollerThread) (self : service)
    : service :=
  {| mc := mc self; poller_threads := ps;
     motion_controller_thread := motion_controller_thread self |}.

(** The [command] argument of [run]: a callable or a symbolic name. *)
Inductive command :=
| Callable (method : Action)
| Symbolic (name : string).

Definition attribute_error (name : string) : pyexception :=
  {| exc_type := AttributeError; exc_msg := name |}.

(** The resolution of a symbolic command: [command.split(".")] unpacked into
    two names, then one [getattr] on the handle and one on the group. *)
Definition resolve (sdk : gmap string (gmap string Action)) (name : string)
    : result Action :=
  match split_dot name with
  | [module_name; method_name] =>
      match sdk !! module_name with
      | None => Raises (attribute_error module_name)
      | Some module =>
          match module !! method_name with
          | None => Raises (attribute_error method_name)
          | Some method => Returns method
          end
      end
  | [] | [_] =>
      Raises {| exc_type := ValueError;
                exc_msg := "not enough values to unpack" |}
  | _ =>
      Raises {| exc_type := ValueError;
                exc_msg := "too many values to unpack" |}
  end.

(** [run(report_callback, command, *args, **kwargs)] *)
Definition run (report_callback : pyvalue) (cmd : command)
    (args : list pyvalue) (kwargs : kwargs_t) (self : service)
    : service * result unit :=
  match (match cmd with
         | Symbolic name => resolve (mc self) name
         | Callable method => Returns method
         end) with
  | Raises e => (self, Raises e)
  | Returns method =>
      let task := {| action := method; callback := report_callback;
                     args := args; kwargs := kwargs |} in
      (with_thread (put (Some task) (motion_controller_thread self)) self,
       Returns tt)
  end.

(** A method written for the decorator: called with the arguments of the
    wrapped call, it returns the closure that is to run on the thread. *)
Definition wrapped := service -> list pyvalue -> kwargs_t -> result Action.

(** The parameters of [run] that a call can name: a keyword argument of
    one of these names, handed on with [**kwargs] next to the positional
    arguments, gives the parameter two values. *)
Definition run_parameters : list string :=
  ["self"; "report_callback"; "command"].

Definition shadows_run_parameter (kwargs : kwargs_t) : bool :=
  existsb (fun kv => bool_decide (kv.1 ∈ run_parameters)) kwargs.

(** [run_on_thread(func)], that is [wrap(self, *args, **kwargs)]: the body
    [func(self, *args, **kwargs)], then [args[0]], then the call
    [self.run(args[0], on_thread, *args[1:], **kwargs)], which Python refuses
    with a [TypeError] before [run] is entered when a keyword names one of
    the parameters of [run]. *)
Definition run_on_thread (func : wrapped) (self : service)
    (args : list pyvalue) (kwargs : kwargs_t) : service * result unit :=
  match func self args kwargs with
  | Raises e => (self, Raises e)
  | Returns on_thread =>
      match args with
      | [] =>
          (self, Raises {| exc_type := IndexError;
                           exc_msg := "tuple index out of range" |})
      | report_callback :: rest =>
          if shadows_run_parameter kwargs then
            (self, Raises {| exc_type := TypeError;
                             exc_msg := "run() got multiple values for argument" |})
          else run report_callback (Callable on_thread) rest kwargs self
      end
  end.

(** [create_poller_thread] *)
Definition create_poller_thread (alias : string) (registers : list pyvalue)
    (buffer_size : Z) (self : service) : service * PollerThread :=
  let p := {| alias := alias; registers := registers;
              buffer_size := buffer_size; isRunning := false |} in
  (with_pollers (<[alias := p]> (poller_threads self)) self, p).

(** [self.__poller_threads[alias]] *)
Definition getitem (d : gmap string PollerThread) (key : string)
    : result PollerThread :=
  match d !! key with
  | Some p => Returns p
  | None => Raises {| exc_type := KeyError; exc_msg := key |}
  end.

(** [stop_poller_thread] *)
Definition stop_poller_thread (alias : string) (self : service)
    : service * result unit :=
  if bool_decide (alias ∈ dom (poller_threads self)) then
    match getitem (poller_threads self) alias with
    | Raises e => (self, Raises e)
    | Returns p =>
        if isRunning p then
          match getitem (poller_threads self) alias with
          | Raises e => (self, Raises e)
          | Returns p' =>
              (with_pollers
                 (<[alias := PollerThread_stop p']> (poller_threads self))
                 self,
               Returns tt)
          end
        else (self, Returns tt)
    end
  else (self, Returns tt).

End Service.

(** ** The running system: worker, submitters and the service's thread *)

Module System.
Import Worker Service.

(** The service together with what surrounds it: the clock, everything the
    worker emitted or logged ([trace]), the signal deliveries queued for the
    thread the service lives in ([mailbox]), the calls [callback(report)]
    made by [execute_callback] ([invoked]), the emissions of
    [error_triggered], the exceptions that reached a caller of the service
    or left a slot in the service's thread ([raised]), and whether a call of
    the worker's [stop] and of the
    service's [stop_motion_controller_thread] has returned. *)
Record system := {
  self : service;
  now : Z;
  trace : list event;
  mailbox : list event;
  invoked : list (pyvalue * thread_report);
  error_triggered : list thread_report;
  raised : list pyexception;
  stop_returned : bool;
  joined : bool
}.

Definition boot (sdk : gmap string (gmap string Action)) : system :=
  {| self := Service.new sdk; now := 0; trace := []; mailbox := [];
     invoked := []; error_triggered := []; raised := [];
     stop_returned := false; joined := false |}.

Definition thread_of (s : system) : thread :=
  motion_controller_thread (self s).

Definition with_self (sv : service) (s : system) : system :=
  {| self := sv; now := now s; trace := trace s; mailbox := mailbox s;
     invoked := invoked s; error_triggered := error_triggered s;
     raised := raised s; stop_returned := stop_returned s;
     joined := joined s |}.

Definition with_worker (th : thread) (s : system) : system :=
  with_self (with_thread th (self s)) s.

Definition advance (dt : nat) (s : system) : system :=
  {| self := self s; now := now s + Z.of_nat dt; trace := trace s;
     mailbox := mailbox s; invoked := invoked s;
     error_triggered := error_triggered s; raised := raised s;
     stop_returned := stop_returned s; joined := joined s |}.

(** The worker emits: log entries stay in the trace, signals are also queued
    for the receiving thread. *)
Definition is_signal (e : event) : bool :=
  match e with
  | log_error _ => false
  | _ => true
  end.

Definition emit (evs : list event) (s : system) : system :=
  {| self := self s; now := now s; trace := trace s ++ evs;
     mailbox := mailbox s ++ List.filter is_signal evs;
     invoked := invoked s; error_triggered := error_triggered s;
     raised := raised s; stop_returned := stop_returned s;
     joined := joined s |}.

Definition raise (e : pyexception) (s : system) : system :=
  {| self := self s; now := now s; trace := trace s; mailbox := mailbox s;
     invoked := invoked s; error_triggered := error_triggered s;
     raised := raised s ++ [e]; stop_returned := stop_returned s;
     joined := joined s |}.

(** The outcome of a call of the service from some caller. *)
Definition called (r : service * result unit) (s : system) : system :=
  match r with
  | (sv, Returns _) => with_self sv s
  | (sv, Raises e) => raise e (with_self sv s)
  end.

(** [execute_callback(callback, thread_report)]: [callback(thread_report)].
    The callback is the caller's own code: the call is made, and what it does
    ([outcome]: it returns, or it raises, as the call of an object that
    cannot be called does) is given from outside.  An exception leaves
    [execute_callback] in the service's thread. *)
Definition execute_callback (callback : pyvalue) (r : thread_report)
    (outcome : result unit) (s : system) : system :=
  let s' :=
    {| self := self s; now := now s; trace := trace s; mailbox := mailbox s;
       invoked := invoked s ++ [(callback, r)];
       error_triggered := error_triggered s; raised := raised s;
       stop_returned := stop_returned s; joined := joined s |} in
  match outcome with
  | Returns _ => s'
  | Raises e => raise e s'
  end.

Definition emit_error_triggered (r : thread_report) (s : system) : system :=
  {| self := self s; now := now s; trace := trace s; mailbox := mailbox s;
     invoked := invoked s; error_triggered := error_triggered s ++ [r];
     raised := raised s; stop_returned := stop_returned s;
     joined := joined s |}.

(** The service's thread takes the next queued delivery: [task_completed] is
    connected to [execute_callback], [task_errored] to [error_triggered];
    [outcome] is what the callback does when it is called. *)
Definition deliver (outcome : result unit) (s : system) : system :=
  match mailbox s with
  | [] => s
  | e :: rest =>
      let s' :=
        {| self := self s; now := now s; trace := trace s; mailbox := rest;
           invoked := invoked s; error_triggered := error_triggered s;
           raised := raised s; stop_returned := stop_returned s;
           joined := joined s |} in
      match e with
      | task_completed cb r => execute_callback cb r outcome s'
      | task_errored r => emit_error_triggered r s'
      | log_error _ => s'
      end
  end.

Definition set_stop_returned (s : system) : system :=
  {| self := self s; now := now s; trace := trace s; mailbox := mailbox s;
     invoked := invoked s; error_triggered := error_triggered s;
     raised := raised s; stop_returned := true; joined := joined s |}.

(** [QThread.wait()]: returns once the thread has finished, and at once for
    a thread that was never started; otherwise the caller stays blocked. *)
Definition wait (s : system) : system :=
  match pc (thread_of s) with
  | Idle | Exited | Crashed _ _ =>
      {| self := self s; now := now s; trace := trace s; mailbox := mailbox s;
         invoked := invoked s; error_triggered := error_triggered s;
         raised := raised s; stop_returned := stop_returned s;
         joined := true |}
  | _ => s
  end.

(** The atomic steps.  [Deliver outcome] is the service's thread handling
    the next queued signal, where [outcome] is what the callback does if the
    signal has one to call. *)
Inductive label :=
| Tick (dt : nat)
| Work
| Submit (report_callback : pyvalue) (cmd : command)
         (args : list pyvalue) (kwargs : kwargs_t)
| Call (func : wrapped) (args : list pyvalue) (kwargs : kwargs_t)
| StopFlag
| StopPut
| Wait
| Deliver (outcome : result unit).

Definition step (l : label) (s : system) : system :=
  match l with
  | Tick dt => advance dt s
  | Work =>
      let '(th, evs) := Worker.step (now s) (thread_of s) in
      emit evs (with_worker th s)
  | Submit cb cmd args kwargs => called (run cb cmd args kwargs (self s)) s
  | Call func args kwargs => called (run_on_thread func (self s) args kwargs) s
  | StopFlag => with_worker (stop_flag (thread_of s)) s
  | StopPut => set_stop_returned (with_worker (stop_put (thread_of s)) s)
  | Wait => wait s
  | Deliver outcome => deliver outcome s
  end.

Definition run_schedule (sched : list label) (s : system) : system :=
  fold_left (fun s l => step l s) sched s.

(** A delivery whose callback returns. *)
Definition Delivered : label := Deliver (Returns tt).

(** [stop_motion_controller_thread]: the worker's [stop], then [wait]. *)
Definition stop_motion_controller_thread : list label :=
  [StopFlag; StopPut; Wait].

End System.

(** ** Observations on runs *)

Module Observe.
Import Worker Service System.

(** The pairs handed to [execute_callback], and the reports sent on the
    error channel, in a list of events. *)
Definition successes (evs : list event) : list (pyvalue * thread_report) :=
  flat_map (fun e => match e with
                     | task_completed cb r => [(cb, r)]
                     | _ => []
                     end) evs.

Definition failures (evs : list event) : list thread_report :=
  flat_map (fun e => match e with
                     | task_errored r => [r]
                     | _ => []
                     end) evs.


Definition is_drive (v : pyvalue) : bool :=
  match v with
  | PyDrive _ => true
  | _ => false
  end.

(** A report agrees with its task on the two derived fields. *)
Definition derived_fields_ok (tr : motion_controller_task * thread_report)
    : Prop :=
  subject (snd tr) = find_drive (args (fst tr))
  /\ func_name (callback (fst tr)) = Returns (operation_name (snd tr)).

(** The bookkeeping of the queue and of the reports. *)
Definition thread_inv (th : thread) : Prop :=
  puts th = taken th ++ queue th
  /\ (exists ts, taken th = map Some ts
                 \/ (taken th = map Some ts ++ [None] /\ pc th = Exited))
  /\ map fst (reported th) ++ unreported (pc th) = executed th
  /\ pc th <> Idle
  /\ Forall derived_fields_ok (reported th).

(** What was emitted is what was reported; every signal is either delivered
    or still in the mailbox. *)
Definition delivery_inv (s : system) : Prop :=
  trace s = flat_map (fun tr => events_of (fst tr) (snd tr))
                     (reported (thread_of s))
  /\ successes (trace s) = invoked s ++ successes (mailbox s)
  /\ failures (trace s) = error_triggered s ++ failures (mailbox s).

(** Once [stop] has returned the sentinel is on the queue until the thread
    is over; a [wait] that returned saw the thread over. *)
Definition stop_inv (s : system) : Prop :=
  (stop_returned s = true ->
     finished (thread_of s) = true \/ None ∈ queue (thread_of s))
  /\ (joined s = true -> finished (thread_of s) = true).

(** A bound on the steps the worker still takes when the sentinel is on its
    queue: three per task ahead of the sentinel, and the way to the next
    [get]. *)
Definition fuel (th : thread) : nat :=
  let k := length (before_sentinel (queue th)) in
  match pc th with
  | Idle => 0
  | Started => 3 * k + 3
  | LoopHead => 3 * k + 2
  | AtGet => 3 * k + 1
  | Executing _ _ => 3 * k + 3
  | Exited => 0
  | Crashed _ _ => 0
  end%nat.

Definition is_work (l : label) : bool :=
  match l with
  | Work => true
  | _ => false
  end.

Definition works (sched : list label) : nat :=
  length (List.filter is_work sched).








(** What a step of a caller of the service does to the thread object:
    nothing, a put, or a write of the flag. *)
Inductive env_move (th : thread) : thread -> Prop :=
| env_same : env_move th th
| env_put item : env_move th (put item th)
| env_flag b : env_move th (set_running b th).

(** The thread is over, or the sentinel is waiting on its queue. *)
Definition stopping (th : thread) : Prop :=
  finished th = true \/ None ∈ queue th.

(** What holds in every state the system can reach. *)
Definition inv (s : system) : Prop :=
  thread_inv (thread_of s) /\ delivery_inv s /\ stop_inv s.

(** The report an event carries. *)
Definition report_of (e : event) : thread_report :=
  match e with
  | task_completed _ r => r
  | task_errored r => r
  | log_error r => r
  end.

(** The readings of the spec that the code does not bear out. *)


(** "An exception raised while resolving a symbolic command terminates the
    worker's execution context." *)
Definition resolution_failure_is_fatal (s : system) (cb : pyvalue)
    (name : string) (args : list pyvalue) (kwargs : kwargs_t) : Prop :=
  forall e, resolve (mc (self s)) name = Raises e ->
  finished (thread_of (step (Submit cb (Symbolic name) args kwargs) s)) = true.

(** "When the worker's [stop] returns, the loop has terminated." *)
Definition stop_joins (s : system) : Prop :=
  stop_returned s = true -> finished (thread_of s) = true.

(** "For every task whose action returns normally, the Worker builds exactly
    one Report with output set to the action's return value and error
    absent, emits it exactly once on the success channel paired with the
    task's callback." *)
Definition return_is_reported (s : system) (t : motion_controller_task)
    (ts : Z) : Prop :=
  forall v,
    pc (thread_of s) = Executing t ts ->
    action t (args t) (kwargs t) = Returns v ->
    exists r,
      output r = v /\ error r = None
      /\ trace (step Work s) = trace s ++ [task_completed (callback t) r].

(** "For every task whose action raises a failure from the closed domain
    set, the Worker catches it, builds exactly one Report with error set to
    the caught failure and output absent, logs it, emits it on the error
    channel, and continues looping." *)
Definition domain_failure_is_survived (s : system)
    (t : motion_controller_task) (ts : Z) : Prop :=
  forall e,
    pc (thread_of s) = Executing t ts ->
    action t (args t) (kwargs t) = Raises e ->
    isinstance e DOMAIN_FAILURES = true ->
    finished (thread_of (step Work s)) = false
    /\ exists r,
         error r = Some e /\ output r = PyNone
         /\ trace (step Work s) = trace s ++ [log_error r; task_errored r].


End Observe.

(** ** Concrete runs *)

Module Scenario.
Import Worker Service System.

Definition succeed (v : pyvalue) : Action := fun _ _ => Returns v.
Definition fail (e : pyexception) : Action := fun _ _ => Raises e.

Definition no_dictionary : pyexception :=
  {| exc_type := FileNotFoundError; exc_msg := "No dictionary selected." |}.
Definition bug : pyexception :=
  {| exc_type := AttributeError; exc_msg := "servo" |}.

Definition sdk : gmap string (gmap string Action) :=
  {[ "communication" := {[ "get_register" := succeed (PyInt 7) ]} ]}.

Definition task (name : string) (a : Action) (args : list pyvalue)
    (kwargs : kwargs_t) : motion_controller_task :=
  {| action := a; callback := PyFunction name; args := args;
     kwargs := kwargs |}.

Definition T1 := task "Controller.t1_callback" (succeed (PyInt 1)) [] [].
Definition T2 := task "Controller.t2_callback" (succeed (PyInt 2)) [] [].
Definition T3 := task "Controller.t3_callback" (succeed (PyInt 3)) [] [].

(** The task of scenario A and the task of scenario B. *)
Definition task_A : motion_controller_task :=
  task "Controller.cb" (succeed (PyInt 42)) [] [].
Definition task_B : motion_controller_task :=
  task "Controller.cb" (fail no_dictionary) [] [].
(** A task whose action fails outside the domain failures. *)
Definition task_bug : motion_controller_task :=
  task "Controller.cb" (fail bug) [] [].

Definition submit (t : motion_controller_task) : label :=
  Submit (callback t) (Callable (action t)) (args t) (kwargs t).

(** One turn of the loop: the test, the [get], the body. *)
Definition turn : list label := [Work; Work; Work].

(** Scenario A: an action that returns 42. *)
Definition scenario_A : list label :=
  [Work; submit task_A] ++ turn ++ [Delivered].

(** Scenario B: an action that raises the missing-resource failure. *)
Definition scenario_B : list label :=
  [Work; submit task_B] ++ turn ++ [Delivered].

(** Scenario C: three tasks in a row. *)
Definition scenario_C : list label :=
  [Work; submit T1; submit T2; submit T3]
  ++ turn ++ [Delivered] ++ turn ++ turn ++ [Delivered; Delivered].

(** Scenario D: [stop] arrives while [T2] is in flight and [T3] is queued. *)
Definition scenario_D : list label :=
  [Work; submit T2; submit T3; Work; Work; Tick 5; StopFlag; StopPut;
   Work; Work].

(** A submission with an unknown command group between two good ones. *)
Definition unknown_group : label :=
  Submit (PyFunction "Controller.cb") (Symbolic "nosuch.get_register") [] [].

(** [stop] returns while a task is still in flight. *)
Definition stop_in_flight : list label :=
  [Work; submit T2; Work; Work; StopFlag; StopPut].


(** A [disconnect_drives]-like method: no argument besides the callback,
    which may come by position or by keyword. *)
Definition disconnect_drives : wrapped :=
  fun _ args kwargs =>
    match args, kwargs with
    | [], [] =>
        Raises {| exc_type := TypeError;
                  exc_msg := "missing 1 required positional argument: 'report_callback'" |}
    | _, _ => Returns (succeed PyNone)
    end.

(** A task as [enable_motor] submits it behind a progress callback, and
    the report the worker makes of it. *)
Definition enable_motor_task : motion_controller_task :=
  {| action := succeed PyNone;
     callback := PyPartial "MotorController.enable_callback";
     args := [PyObject "progress"; PyDrive Right; PyDrive Left];
     kwargs := [] |}.

Definition enable_motor_report : thread_report :=
  {| subject := Some Right;
     operation_name := "MotorController.enable_callback";
     output := PyNone; timestamp := 3; duration := 4; error := None |}.

(** A task whose drive comes by keyword only. *)
Definition keyword_only_task : motion_controller_task :=
  {| action := succeed PyNone;
     callback := PyFunction "MotorController.enable_callback";
     args := [];
     kwargs := [("drive", PyDrive Left)] |}.

(** The tasks of scenarios A and B behind a callback that is an instance of
    a class with [__call__]: it can be called, and it has no
    [__qualname__]. *)
Definition listener : pyvalue := PyObject "<Listener object>".

Definition task_A_listener : motion_controller_task :=
  {| action := succeed (PyInt 42); callback := listener; args := [];
     kwargs := [] |}.
Definition task_B_listener : motion_controller_task :=
  {| action := fail no_dictionary; callback := listener; args := [];
     kwargs := [] |}.

(** The method of the decorator's docstring,
    [get_register(self, report_callback, *args, **kwargs)]. *)
Definition get_register : wrapped :=
  fun _ args _ =>
    match args with
    | _ :: _ => Returns (succeed (PyInt 7))
    | [] =>
        Raises {| exc_type := TypeError;
                  exc_msg := "missing 1 required positional argument: 'report_callback'" |}
    end.

End Scenario.

(** ** Further observations on the worker *)

Module Ledger.
Import Worker Service System Observe.

(** The sentinels among the items the thread has taken off its queue. *)
Definition sentinels (l : list (option motion_controller_task)) : nat :=
  length (List.filter (fun i => match i with
                                | None => true
                                | Some _ => false
                                end) l).

(** What [Queue.unfinished_tasks] should be: one for every item still
    queued, one for the task in flight (or the one that ended the thread),
    one for every sentinel taken ([task_done] is not called for it). *)
Definition outstanding (th : thread) : nat :=
  (length (queue th) + length (unreported (pc th)) + sentinels (taken th))%nat.

(** A report tells what the action of its task did. *)
Definition outcome_ok (tr : motion_controller_task * thread_report) : Prop :=
  match error tr.2 with
  | None => action tr.1 (args tr.1) (kwargs tr.1) = Returns (output tr.2)
  | Some e =>
      action tr.1 (args tr.1) (kwargs tr.1) = Raises e
      /\ output tr.2 = PyNone
      /\ isinstance e DOMAIN_FAILURES = true
  end.

(** A thread that left its loop did so on the sentinel or on a cleared
    flag. *)
Definition exit_inv (th : thread) : Prop :=
  pc th = Exited ->
  running th = false \/ exists ts, taken th = map Some ts ++ [None].

Definition is_stop_flag (l : label) : bool :=
  match l with
  | StopFlag => true
  | _ => false
  end.

(** The string has a dot in it. *)
Fixpoint has_dot (s : string) : bool :=
  match s with
  | EmptyString => false
  | String c rest => Ascii.eqb c "."%char || has_dot rest
  end.

End Ledger.

(** ** The operations the service runs on the thread *)

Module Operations.
Import Worker Service.

(** [utils.enums.ConnectionProtocol]: the two members the service names,
    and [OtherProtocol] for any further member the enumeration may have. *)
Inductive ConnectionProtocol := CANopen | EtherCAT | OtherProtocol.

#[global] Instance ConnectionProtocol_eq_dec : EqDecision ConnectionProtocol.
Proof. solve_decision. Defined.

(** [Drive.Left.name], [Drive.Right.name] *)
Definition Drive_name (d : Drive) : string :=
  match d with
  | Left => "Left"
  | Right => "Right"
  end.

(** The attributes of [models.base_model.BaseModel] that the service reads.
    The two CAN settings are members of enumerations of [utils.enums]; they
    are carried as opaque objects. *)
Record BaseModel := {
  connection : ConnectionProtocol;
  can_device : pyvalue;
  can_baudrate : pyvalue;
  interface_index : Z
}.

(** The attributes of [models.connection_model.ConnectionModel] that
    [connect_drives] reads, on top of those of the base model. *)
Record ConnectionModel := {
  base : BaseModel;
  dictionary : option string;
  left_id : option Z;
  right_id : option Z;
  left_config : option string;
  right_config : option string
}.

(** The calls the service makes on the [MotionController] handle, with the
    arguments it passes. *)
Inductive sdk_call :=
| connect_servo_ethercat_interface_index
    (if_index : Z) (slave_id : Z) (dict_path : string) (alias : string)
| connect_servo_canopen
    (baudrate : pyvalue) (can_device : string) (dict_path : string)
    (node_id : Z) (alias : string)
| load_configuration (config_path : string) (servo : string)
| scan_servos_canopen (can_device : string) (baudrate : pyvalue)
| scan_servos_ethercat_interface_index (if_index : Z)
| motor_disable (servo : string)
| disconnect (servo : string).

(** The handle [self.__mc] as the service sees it: some state, what a call
    does to it (the new state, and the node ids returned or the exception
    raised; the service looks at the ids of a scan only), the aliases in
    [mc.servos], and [mc.is_alive], taken to answer without raising. *)
Record Handle := {
  hw_state : Type;
  perform : sdk_call -> hw_state -> hw_state * result (list Z);
  servos : hw_state -> list string;
  is_alive : string -> hw_state -> bool
}.

(** What [ET.parse(filepath).getroot().find(DEVICE_NODE)] comes to: the
    exception [ET.parse] raises (no such file, a file that is not
    well-formed XML, ...), or a document with the attributes of its device
    element, if it has one. *)
Inductive parse_result :=
| Fails (e : pyexception)
| Document (device : option (gmap string string)).

Definition INTERFACE_CAN : string := "CAN".
Definition INTERFACE_ETH : string := "ETH".

Definition il_error (msg : string) : pyexception :=
  {| exc_type := ILError; exc_msg := msg |}.

(** [xml.etree.ElementTree.ParseError], a [SyntaxError]. *)
Definition ParseError : exc_class :=
  Subclass "ParseError" [Subclass "SyntaxError" [Exception]].

(** [str(x)] for an integer and for a list of integers. *)
Definition str_int (z : Z) : string := pretty z.
Definition str_list (l : list Z) : string :=
  "[" +:+ String.concat ", " (map str_int l) +:+ "]".

Section WithHandle.

Variable mc : Handle.
(** The file system under [ET.parse], and [utils.enums.stringify_can_device_enum];
    neither is among the sources. *)
Variable parse : string -> parse_result.
Variable stringify_can_device_enum : pyvalue -> string.

(** What the closures run in: the handle, the calls made on it so far, and
    the service (for its pollers). *)
Record world := {
  hw : hw_state mc;
  calls : list sdk_call;
  svc : service
}.

Definition M (A : Type) : Type := world -> world * result A.

Definition ret {A} (a : A) : M A := fun w => (w, Returns a).
Definition raise {A} (e : pyexception) : M A := fun w => (w, Raises e).
Definition bind {A B} (m : M A) (k : A -> M B) : M B :=
  fun w => match m w with
           | (w', Returns a) => k a w'
           | (w', Raises e) => (w', Raises e)
           end.

(** A call on the handle: it is made (and logged) whether it returns or
    raises. *)
Definition call (c : sdk_call) : M (list Z) :=
  fun w =>
    let '(h, r) := perform mc c (hw w) in
    ({| hw := h; calls := calls w ++ [c]; svc := svc w |}, r).

(** A [for] loop over a list taken beforehand. *)
Fixpoint for_each {A} (l : list A) (body : A -> M unit) : M unit :=
  match l with
  | [] => ret tt
  | x :: rest => bind (body x) (fun _ => for_each rest body)
  end.

(** [check_dictionary_format] *)
Definition check_dictionary_format (filepath : string)
    : result ConnectionProtocol :=
  match parse filepath with
  | Fails e => Raises e
  | Document None => Raises (il_error "Invalid file format")
  | Document (Some attrib) =>
      match attrib !! "Interface" with
      | None => Raises {| exc_type := KeyError; exc_msg := "Interface" |}
      | Some interface =>
          if decide (interface = INTERFACE_CAN) then Returns CANopen
          else if decide (interface = INTERFACE_ETH) then Returns EtherCAT
          else Raises (il_error "Connection type not supported.")
      end
  end.

(** [not drive_model.dictionary] *)
Definition no_dictionary (d : option string) : bool :=
  match d with
  | None => true
  | Some s => bool_decide (s = "")
  end.

(** The body of the loop of [connect_drives] for one drive. *)
Definition connect_one (drive_model : ConnectionModel) (dict : string)
    (entry : string * option Z * option string) : M unit :=
  let '(drive, id, config) := entry in
  match id with
  | None => ret tt
  | Some id =>
      bind
        (match connection (base drive_model) with
         | EtherCAT =>
             call (connect_servo_ethercat_interface_index
                     (interface_index (base drive_model)) id dict drive)
         | CANopen =>
             call (connect_servo_canopen
                     (can_baudrate (base drive_model))
                     (stringify_can_device_enum (can_device (base drive_model)))
                     dict id drive)
         | OtherProtocol => raise (il_error "Connection type not implemented.")
         end)
        (fun _ =>
           match config with
           | Some config => bind (call (load_configuration config drive))
                                 (fun _ => ret tt)
           | None => ret tt
           end)
  end.

Definition drive_entries (drive_model : ConnectionModel)
    : list (string * option Z * option string) :=
  [(Drive_name Left, left_id drive_model, left_config drive_model);
   (Drive_name Right, right_id drive_model, right_config drive_model)].

(** [connect_drives]: the closure [on_thread(drive_model)]. *)
Definition connect_drives (drive_model : ConnectionModel) : M unit :=
  if no_dictionary (dictionary drive_model) then
    raise (il_error "No dictionary selected.")
  else
    let dict := default "" (dictionary drive_model) in
    match check_dictionary_format dict with
    | Raises e => raise e
    | Returns dictionary_type =>
        if decide (dictionary_type <> connection (base drive_model)) then
          raise (il_error
                   "Communication type does not match the dictionary type.")
        else if decide (left_id drive_model = right_id drive_model) then
          raise (il_error "Node IDs cannot be the same.")
        else for_each (drive_entries drive_model)
                      (connect_one drive_model dict)
    end.

(** [scan_servos]: the closure [on_thread(drive_model, minimum_nodes)]. *)
Definition scan_servos (drive_model : BaseModel) (minimum_nodes : Z)
    : M (list Z) :=
  bind
    (match connection drive_model with
     | CANopen =>
         call (scan_servos_canopen
                 (stringify_can_device_enum (can_device drive_model))
                 (can_baudrate drive_model))
     | EtherCAT =>
         call (scan_servos_ethercat_interface_index
                 (interface_index drive_model))
     | OtherProtocol => raise (il_error "Connection type not implemented.")
     end)
    (fun result =>
       if Z.of_nat (length result) <? minimum_nodes then
         let nodes_found :=
           if 0 <? Z.of_nat (length result) then str_list result
           else "(none)" in
         raise (il_error
                  ("Scan expected to find at least " +:+ str_int minimum_nodes
                   +:+ " nodes. " +:+ "Nodes found: " +:+ nodes_found))
       else ret result).

(** [self.stop_poller_thread(servo)] from within a closure. *)
Definition stop_poller (servo : string) : M unit :=
  fun w =>
    let '(sv, r) := stop_poller_thread servo (svc w) in
    ({| hw := hw w; calls := calls w; svc := sv |}, r).

(** [disconnect_drives]: the closure [on_thread()], a loop over
    [list(self.__mc.servos)]. *)
Definition disconnect_drives : M unit :=
  fun w =>
    for_each (servos mc (hw w))
      (fun servo w' =>
         if is_alive mc servo (hw w') then
           bind (call (motor_disable servo))
                (fun _ => bind (stop_poller servo)
                               (fun _ => bind (call (disconnect servo))
                                              (fun _ => ret tt))) w'
         else ret tt w')
      w.

(** What [connect_drives] asks of the handle for one drive and for both,
    when nothing fails. *)
Definition connect_call (drive_model : ConnectionModel) (dict : string)
    (id : Z) (drive : string) : sdk_call :=
  match connection (base drive_model) with
  | EtherCAT =>
      connect_servo_ethercat_interface_index
        (interface_index (base drive_model)) id dict drive
  | _ =>
      connect_servo_canopen
        (can_baudrate (base drive_model))
        (stringify_can_device_enum (can_device (base drive_model)))
        dict id drive
  end.

Definition expected_calls_one (drive_model : ConnectionModel) (dict : string)
    (entry : string * option Z * option string) : list sdk_call :=
  let '(drive, id, config) := entry in
  match id with
  | None => []
  | Some id =>
      connect_call drive_model dict id drive
      :: match config with
         | Some config => [load_configuration config drive]
         | None => []
         end
  end.

Definition expected_calls (drive_model : ConnectionModel) : list sdk_call :=
  flat_map (expected_calls_one drive_model
              (default "" (dictionary drive_model)))
           (drive_entries drive_model).

(** The checks [connect_drives] makes before it touches the handle. *)
Definition valid (drive_model : ConnectionModel) : bool :=
  negb (no_dictionary (dictionary drive_model))
  && match check_dictionary_format (default "" (dictionary drive_model)) with
     | Returns dictionary_type =>
         bool_decide (dictionary_type = connection (base drive_model))
     | Raises _ => false
     end
  && negb (bool_decide (left_id drive_model = right_id drive_model)).

End WithHandle.

Arguments hw {mc} w.
Arguments calls {mc} w.
Arguments svc {mc} w.

(** Two handles and a file system to run the closures on.  The state is
    the list of the connected aliases and a scan finds the nodes 31 and 32;
    on [calm] no call raises, on [bench] the motor of the servo "Jammed"
    cannot be disabled. *)
Definition calm_perform (c : sdk_call) (s : list string)
    : list string * result (list Z) :=
  match c with
  | connect_servo_ethercat_interface_index _ _ _ a => (s ++ [a], Returns [])
  | connect_servo_canopen _ _ _ _ a => (s ++ [a], Returns [])
  | load_configuration _ _ => (s, Returns [])
  | scan_servos_canopen _ _ => (s, Returns [31; 32])
  | scan_servos_ethercat_interface_index _ => (s, Returns [31; 32])
  | motor_disable a => (s, Returns [])
  | disconnect a => (List.filter (fun b => negb (String.eqb a b)) s, Returns [])
  end.

Definition bench_perform (c : sdk_call) (s : list string)
    : list string * result (list Z) :=
  match c with
  | motor_disable a =>
      if bool_decide (a = "Jammed")
      then (s, Raises {| exc_type := IMException; exc_msg := "Jammed" |})
      else calm_perform c s
  | _ => calm_perform c s
  end.

Definition calm : Handle :=
  {| hw_state := list string;
     perform := calm_perform;
     servos := fun s => s;
     is_alive := fun a _ => negb (String.eqb a "Dead") |}.

Definition bench : Handle :=
  {| hw_state := list string;
     perform := bench_perform;
     servos := fun s => s;
     is_alive := fun a _ => negb (String.eqb a "Dead") |}.

Definition bench_parse (filepath : string) : parse_result :=
  if String.eqb filepath "can.xdf"
  then Document (Some {[ "Interface" := "CAN" ]})
  else if String.eqb filepath "eth.xdf"
  then Document (Some {[ "Interface" := "ETH" ]})
  else if String.eqb filepath "empty.xdf" then Document None
  else if String.eqb filepath "broken.xdf"
  then Fails {| exc_type := ParseError; exc_msg := filepath |}
  else Fails {| exc_type := FileNotFoundError; exc_msg := filepath |}.

Definition bench_stringify (v : pyvalue) : string :=
  match v with
  | PyObject repr => repr
  | _ => ""
  end.

Definition bench_base (p : ConnectionProtocol) : BaseModel :=
  {| connection := p; can_device := PyObject "kvaser";
     can_baudrate := PyObject "Baudrate_1M"; interface_index := 3 |}.

Definition bench_model (p : ConnectionProtocol) (dict : option string)
    (l r : option Z) : ConnectionModel :=
  {| base := bench_base p; dictionary := dict; left_id := l; right_id := r;
     left_config := Some "left.xcf"; right_config := None |}.

Definition bench_world (connected : list string)
    (pollers : gmap string PollerThread) : world bench :=
  Build_world bench connected [] (with_pollers pollers (Service.new ∅)).

Definition calm_world (connected : list string)
    (pollers : gmap string PollerThread) : world calm :=
  Build_world calm connected [] (with_pollers pollers (Service.new ∅)).

Definition running_poller (a : string) : PollerThread :=
  {| alias := a; registers := []; buffer_size := 100; isRunning := true |}.

End Operations.

(** ** Properties *)

Import Worker Service System Observe Scenario.

(** *** Lists of queue items *)

Section Lists.
Context {A : Type}.

Lemma omap_id_map_Some (ts : list A) : omap id (map Some ts) = ts.
Proof. induction ts as [|t ts IH]; simpl; [done | by f_equal]. Qed.

Lemma omap_id_snoc (l : list (option A)) (x : option A) :
  omap id (l ++ [x]) = omap id l ++ match x with Some t => [t] | None => [] end.
Proof. rewrite omap_app. by destruct x. Qed.

End Lists.

Lemma before_sentinel_app ts l :
  before_sentinel (map Some ts ++ l) = ts ++ before_sentinel l.
Proof. induction ts as [|t ts IH]; simpl; [done | by rewrite IH]. Qed.

Lemma before_sentinel_snoc l x :
  None ∈ l -> before_sentinel (l ++ [x]) = before_sentinel l.
Proof.
  induction l as [|[t|] l IH]; simpl; intros H.
  - by apply elem_of_nil in H.
  - apply elem_of_cons in H as [H|H]; [discriminate | by rewrite IH].
  - done.
Qed.


Lemma thread_inv_start : thread_inv (start init).
Proof. split_and!; simpl; try done. exists []. by left. Qed.

Lemma thread_inv_put item th : thread_inv th -> thread_inv (put item th).
Proof.
  intros (Hq & [ts Hs] & Hr & Hi & Hd). split_and!; simpl; try done.
  - by rewrite Hq, app_assoc.
  - by exists ts.
Qed.

Lemma thread_inv_set_running b th :
  thread_inv th -> thread_inv (set_running b th).
Proof. intros (Hq & Hs & Hr & Hi & Hd). by split_and!. Qed.

Ltac tidy := unfold executed in *; cbn -[omap] in *.

Lemma thread_inv_step now th :
  thread_inv th -> thread_inv (Worker.step now th).1.
Proof.
  intros Hinv. pose proof Hinv as (Hq & [ts Hs] & Hr & Hi & Hd).
  unfold Worker.step.
  destruct (pc th) as [| | | |t ts0| |t e] eqn:Hpc; tidy; try done.
  - (* Started *)
    split_and!; tidy; try done.
    exists ts. destruct Hs as [Hs|[Hs ?]]; [by left | congruence].
  - (* LoopHead *)
    assert (Hts : taken th = map Some ts)
      by (destruct Hs as [|[_ ?]]; [done | congruence]).
    split_and!; tidy; try done.
    + exists ts. by left.
    + by destruct (running th).
    + by destruct (running th).
  - (* AtGet *)
    assert (Hts : taken th = map Some ts)
      by (destruct Hs as [|[_ ?]]; [done | congruence]).
    unfold queue_get. destruct (queue th) as [|item q] eqn:Hqu; [done|].
    split_and!; tidy.
    + by rewrite Hq, <- app_assoc.
    + destruct item as [t|].
      * exists (ts ++ [t]). left. by rewrite Hts, map_app.
      * exists ts. right. by rewrite Hts.
    + rewrite omap_id_snoc, <- Hr, app_nil_r. by destruct item.
    + by destruct item.
    + done.
  - (* Executing *)
    assert (Hts : taken th = map Some ts)
      by (destruct Hs as [|[_ ?]]; [done | congruence]).
    unfold loop_body.
    destruct (try_action t) as [[out exn]|e] eqn:Hty; tidy.
    2:{ split_and!; tidy; try done. exists ts. by left. }
    destruct (func_name (callback t)) as [name|e] eqn:Hfn; tidy.
    2:{ split_and!; tidy; try done. exists ts. by left. }
    split_and!; tidy; try done.
    + exists ts. by left.
    + by rewrite map_app, app_nil_r.
    + apply Forall_app. split; [done|]. by repeat constructor.
Qed.


(** *** What a step of the environment does to the thread *)

Lemma run_env_move cb cmd args kwargs sv :
  env_move (motion_controller_thread sv)
           (motion_controller_thread (run cb cmd args kwargs sv).1).
Proof.
  unfold run.
  destruct (match cmd with Symbolic name => resolve (mc sv) name
                         | Callable m => Returns m end); simpl; constructor.
Qed.

Lemma run_on_thread_env_move func sv args kwargs :
  env_move (motion_controller_thread sv)
           (motion_controller_thread (run_on_thread func sv args kwargs).1).
Proof.
  unfold run_on_thread. destruct (func sv args kwargs); [|constructor].
  destruct args; [constructor|].
  destruct (shadows_run_parameter kwargs); [constructor | apply run_env_move].
Qed.

Lemma thread_of_called r s :
  thread_of (called r s) = motion_controller_thread r.1.
Proof. by destruct r as [sv [[]|e]]. Qed.

Lemma step_env_move l s :
  l <> Work -> env_move (thread_of s) (thread_of (step l s)).
Proof.
  intros Hl. destruct l; simpl; try done; try constructor.
  - rewrite thread_of_called. apply run_env_move.
  - rewrite thread_of_called. apply run_on_thread_env_move.
  - unfold wait. destruct (pc (thread_of s)); constructor.
  - unfold deliver. destruct (mailbox s) as [|[cb r|r|r] rest]; try constructor.
    unfold execute_callback. destruct outcome; constructor.
Qed.

Lemma thread_of_work s :
  thread_of (step Work s) = (Worker.step (now s) (thread_of s)).1.
Proof. simpl. by destruct (Worker.step (now s) (thread_of s)). Qed.

Lemma env_move_inv th th' : env_move th th' -> thread_inv th -> thread_inv th'.
Proof.
  destruct 1; [done | apply thread_inv_put | apply thread_inv_set_running].
Qed.

Lemma work_or_not (l : label) : l = Work \/ l <> Work.
Proof. destruct l; (by left) || (by right). Qed.

Lemma step_thread_inv l s :
  thread_inv (thread_of s) -> thread_inv (thread_of (step l s)).
Proof.
  intros H. destruct (work_or_not l) as [->|Hl].
  - rewrite thread_of_work. by apply thread_inv_step.
  - by eapply env_move_inv; [apply step_env_move|].
Qed.

(** *** Emission and delivery *)

Lemma successes_app evs1 evs2 :
  successes (evs1 ++ evs2) = successes evs1 ++ successes evs2.
Proof. apply flat_map_app. Qed.

Lemma failures_app evs1 evs2 :
  failures (evs1 ++ evs2) = failures evs1 ++ failures evs2.
Proof. apply flat_map_app. Qed.

Lemma successes_signals evs :
  successes (List.filter is_signal evs) = successes evs.
Proof.
  induction evs as [|[cb r|r|r] evs IH]; simpl; [done | by f_equal | done..].
Qed.

Lemma failures_signals evs :
  failures (List.filter is_signal evs) = failures evs.
Proof.
  induction evs as [|[cb r|r|r] evs IH]; simpl; [done | done | by f_equal | done].
Qed.

Lemma worker_step_emits now th :
  exists new,
    reported (Worker.step now th).1 = reported th ++ new
    /\ (Worker.step now th).2
       = flat_map (fun tr => events_of tr.1 tr.2) new.
Proof.
  unfold Worker.step.
  destruct (pc th) as [| | | |t ts| |t e] eqn:Hpc;
    try (exists []; split; simpl; [by rewrite app_nil_r | done]).
  - exists []. unfold queue_get. destruct (queue th); simpl;
      split; try done; by rewrite app_nil_r.
  - unfold loop_body.
    destruct (try_action t) as [[out exn]|e];
      [|exists []; split; simpl; [by rewrite app_nil_r | done]].
    destruct (func_name (callback t)) as [name|e] eqn:Hfn;
      [|exists []; split; simpl; [by rewrite app_nil_r | done]].
    eexists [(t, _)]. split; simpl; [done | by rewrite app_nil_r].
Qed.

Lemma env_move_reported th th' :
  env_move th th' -> reported th' = reported th.
Proof. by destruct 1. Qed.

Lemma env_move_pc th th' : env_move th th' -> pc th' = pc th.
Proof. by destruct 1. Qed.

Lemma called_fields r s :
  trace (called r s) = trace s /\ mailbox (called r s) = mailbox s
  /\ invoked (called r s) = invoked s
  /\ error_triggered (called r s) = error_triggered s
  /\ stop_returned (called r s) = stop_returned s
  /\ joined (called r s) = joined s.
Proof. by destruct r as [sv [[]|e]]. Qed.

Lemma step_delivery_inv l s : delivery_inv s -> delivery_inv (step l s).
Proof.
  intros (Ht & Hs & Hf).
  destruct (work_or_not l) as [->|Hl].
  - unfold delivery_inv. rewrite thread_of_work.
    destruct (worker_step_emits (now s) (thread_of s)) as (new & Hnew & Hev).
    simpl. destruct (Worker.step (now s) (thread_of s)) as [th evs].
    simpl in *. split_and!.
    + by rewrite Hnew, flat_map_app, Ht, Hev.
    + by rewrite !successes_app, successes_signals, Hs, app_assoc.
    + by rewrite !failures_app, failures_signals, Hf, app_assoc.
  - unfold delivery_inv.
    rewrite (env_move_reported _ _ (step_env_move l s Hl)).
    destruct l as [dt| |cb cmd a k|func a k| | | |o]; simpl; try done.
    + by destruct (called_fields (run cb cmd a k (self s)) s)
        as (-> & -> & -> & -> & _).
    + by destruct (called_fields (run_on_thread func (self s) a k) s)
        as (-> & -> & -> & -> & _).
    + unfold wait. by destruct (pc (thread_of s)).
    + unfold deliver.
      destruct (mailbox s) as [|[cb r|r|r] rest] eqn:Hm;
        [rewrite Hm; by split_and! | | | by split_and!].
      * simpl in Hs. unfold execute_callback.
        destruct o; simpl; (split_and!; try done; by rewrite Hs, <- app_assoc).
      * simpl in Hf. simpl. split_and!; try done. by rewrite Hf, <- app_assoc.
Qed.

(** *** Termination once the sentinel is queued *)

Lemma finished_step now th :
  finished th = true -> (Worker.step now th).1 = th.
Proof. unfold finished, Worker.step. by destruct (pc th). Qed.

Lemma env_move_finished th th' :
  env_move th th' -> finished th' = finished th.
Proof. by destruct 1. Qed.

Lemma stopping_env_move th th' :
  env_move th th' -> stopping th -> stopping th'.
Proof.
  intros Hm [Hf|Hq]; [left; by rewrite (env_move_finished _ _ Hm)|].
  right. destruct Hm; simpl; try done. apply elem_of_app. by left.
Qed.

Lemma stopping_step now th : stopping th -> stopping (Worker.step now th).1.
Proof.
  intros [Hf|Hq]; [left; by rewrite finished_step|].
  unfold Worker.step.
  destruct (pc th) as [| | | |t ts| |t e] eqn:Hpc; simpl;
    try (by right).
  - unfold queue_get. destruct (queue th) as [|[t|] q]; simpl.
    + by apply elem_of_nil in Hq.
    + right. simpl. by apply elem_of_cons in Hq as [|].
    + by left.
  - unfold loop_body. destruct (try_action t) as [[out exn]|e]; [|by left].
    destruct (func_name (callback t)); [by right | by left].
Qed.

Lemma fuel_zero th : pc th <> Idle -> fuel th = 0%nat -> finished th = true.
Proof. unfold fuel, finished. destruct (pc th); intros; try done; lia. Qed.

Lemma fuel_step now th :
  stopping th -> (fuel (Worker.step now th).1 <= fuel th - 1)%nat.
Proof.
  intros [Hf|Hq].
  { rewrite finished_step by done. revert Hf. unfold finished, fuel.
    destruct (pc th); intros; try done; lia. }
  unfold Worker.step, fuel.
  destruct (pc th) as [| | | |t ts| |t e] eqn:Hpc; simpl; try lia.
  - rewrite Hpc. lia.
  - destruct (running th); lia.
  - unfold queue_get. destruct (queue th) as [|[t|] q]; simpl.
    + by apply elem_of_nil in Hq.
    + lia.
    + lia.
  - unfold loop_body. destruct (try_action t) as [[out exn]|e]; simpl; [|lia].
    destruct (func_name (callback t)); simpl; lia.
  - rewrite Hpc. lia.
  - rewrite Hpc. lia.
Qed.

Lemma fuel_env_move th th' :
  env_move th th' -> stopping th -> fuel th' = fuel th.
Proof.
  intros Hm Hs. destruct Hm as [|item|b]; try done.
  unfold fuel. simpl. destruct Hs as [Hf|Hq].
  - revert Hf. unfold finished. by destruct (pc th).
  - by rewrite before_sentinel_snoc.
Qed.

Lemma works_cons l sched :
  works (l :: sched) = ((if is_work l then 1 else 0) + works sched)%nat.
Proof.
  unfold works. by destruct l.
Qed.

Lemma drain sched : forall s,
  pc (thread_of s) <> Idle -> stopping (thread_of s) ->
  (fuel (thread_of s) <= works sched)%nat ->
  finished (thread_of (run_schedule sched s)) = true.
Proof.
  induction sched as [|l sched IH]; intros s Hi Hs Hfuel.
  - apply fuel_zero; [done|]. change (works []) with 0%nat in Hfuel. change (run_schedule [] s) with s. lia.
  - simpl. rewrite works_cons in Hfuel.
    destruct (work_or_not l) as [->|Hl].
    + apply IH.
      * rewrite thread_of_work. unfold Worker.step.
        destruct (pc (thread_of s)) eqn:Hpc; simpl; try done.
        -- by destruct (running (thread_of s)).
        -- unfold queue_get. destruct (queue (thread_of s)) as [|[t|] q]; simpl; try done.
           by rewrite Hpc.
        -- unfold loop_body. destruct (try_action t) as [[out exn]|e]; [|done].
           by destruct (func_name (callback t)).
        -- by rewrite Hpc.
        -- by rewrite Hpc.
      * rewrite thread_of_work. by apply stopping_step.
      * rewrite thread_of_work.
        pose proof (fuel_step (now s) (thread_of s) Hs). simpl in Hfuel. lia.
    + pose proof (step_env_move l s Hl) as Hm. apply IH.
      * by rewrite (env_move_pc _ _ Hm).
      * by eapply stopping_env_move.
      * rewrite (fuel_env_move _ _ Hm Hs).
        destruct l; simpl in Hfuel; try done; lia.
Qed.

Lemma work_flags s :
  stop_returned (step Work s) = stop_returned s
  /\ joined (step Work s) = joined s.
Proof. simpl. by destruct (Worker.step (now s) (thread_of s)). Qed.

Lemma step_stop_inv l s :
  thread_inv (thread_of s) -> stop_inv s -> stop_inv (step l s).
Proof.
  intros (_ & _ & _ & Hi & _) [Hstop Hjoin].
  destruct (work_or_not l) as [->|Hl].
  - destruct (work_flags s) as [Hsr Hj]. split; rewrite ?Hsr, ?Hj, thread_of_work.
    + intros H. by apply stopping_step, Hstop.
    + intros H. by rewrite finished_step; apply Hjoin.
  - pose proof (step_env_move l s Hl) as Hm. split.
    + destruct l as [dt| |cb cmd a k|func a k| | | |o]; try done;
        try (intros H; by apply (stopping_env_move _ _ Hm), Hstop).
      * destruct (called_fields (run cb cmd a k (self s)) s)
          as (_ & _ & _ & _ & Hsr & _).
        simpl. rewrite Hsr. intros H.
        by apply (stopping_env_move _ _ Hm), Hstop.
      * destruct (called_fields (run_on_thread func (self s) a k) s)
          as (_ & _ & _ & _ & Hsr & _).
        simpl. rewrite Hsr. intros H.
        by apply (stopping_env_move _ _ Hm), Hstop.
      * intros _. right. simpl. apply elem_of_app. right. by apply list_elem_of_singleton.
      * simpl. unfold wait. intros H. apply (stopping_env_move _ _ Hm), Hstop.
        revert H. by destruct (pc (thread_of s)).
      * simpl. unfold deliver. intros H. apply (stopping_env_move _ _ Hm), Hstop.
        revert H. destruct (mailbox s) as [|[cb r|r|r] rest]; try done.
        unfold execute_callback. by destruct o.
    + rewrite (env_move_finished _ _ Hm).
      destruct l as [dt| |cb cmd a k|func a k| | | |o]; try done.
      * simpl. by destruct (called_fields (run cb cmd a k (self s)) s)
          as (_ & _ & _ & _ & _ & ->).
      * simpl. by destruct (called_fields (run_on_thread func (self s) a k) s)
          as (_ & _ & _ & _ & _ & ->).
      * simpl. unfold wait, finished in *.
        destruct (pc (thread_of s)); try done.
      * simpl. unfold deliver.
        destruct (mailbox s) as [|[cb r|r|r] rest]; try done.
        unfold execute_callback. by destruct o.
Qed.

Lemma inv_boot sdk : inv (boot sdk).
Proof.
  split_and!.
  - apply thread_inv_start.
  - by split_and!.
  - by split.
Qed.

Lemma inv_step l s : inv s -> inv (step l s).
Proof.
  intros (Ht & Hd & Hs). split_and!.
  - by apply step_thread_inv.
  - by apply step_delivery_inv.
  - by apply step_stop_inv.
Qed.

Lemma inv_run sched : forall s, inv s -> inv (run_schedule sched s).
Proof.
  induction sched as [|l sched IH]; intros s H; [done|].
  simpl. by apply IH, inv_step.
Qed.

Lemma run_schedule_app sched1 sched2 s :
  run_schedule (sched1 ++ sched2) s = run_schedule sched2 (run_schedule sched1 s).
Proof. apply fold_left_app. Qed.


Lemma work_executing s t ts :
  pc (thread_of s) = Executing t ts ->
  step Work s
  = let '(th, evs) := loop_body (now s) t ts (thread_of s) in
    emit evs (with_worker th s).
Proof. intros Hpc. simpl. unfold Worker.step. by rewrite Hpc. Qed.

(** The two steps of [stop], taken one after the other, are [stop]. *)
Lemma stop_is_flag_then_put s :
  thread_of (run_schedule [StopFlag; StopPut] s) = stop (thread_of s).
Proof. reflexivity. Qed.

(** *** C4 and C2 *)

(** C4 (as amended): for a task in flight whose action returns [v] and whose
    callback has a name the worker can read (a function or method, or a
    [partial] over one), the worker's step makes one report, with output [v]
    and no error, emits it once on [task_completed] together with the
    callback and on no other channel, and goes back to the head of the loop;
    delivered to the service, the signal makes [execute_callback] call the
    callback on that report once, whatever the callback then does, and there
    is nothing more to deliver. *)
Theorem success_is_reported_once s t ts v name :
  pc (thread_of s) = Executing t ts ->
  action t (args t) (kwargs t) = Returns v ->
  func_name (callback t) = Returns name ->
  let r := {| subject := find_drive (args t); operation_name := name;
              output := v; timestamp := ts; duration := now s - ts;
              error := None |} in
  let s' := step Work s in
  trace s' = trace s ++ [task_completed (callback t) r]
  /\ mailbox s' = mailbox s ++ [task_completed (callback t) r]
  /\ reported (thread_of s') = reported (thread_of s) ++ [(t, r)]
  /\ pc (thread_of s') = LoopHead
  /\ (mailbox s = [] ->
      forall outcome,
        let s'' := step (Deliver outcome) s' in
        invoked s'' = invoked s ++ [(callback t, r)]
        /\ error_triggered s'' = error_triggered s
        /\ raised s'' = raised s ++ match outcome with
                                    | Returns _ => []
                                    | Raises e => [e]
                                    end
        /\ mailbox s'' = []
        /\ forall outcome', step (Deliver outcome') s'' = s'').
Proof.
  intros Hpc Hact Hname r s'. subst s' r.
  rewrite (work_executing _ _ _ Hpc). unfold loop_body, try_action.
  rewrite Hact, Hname. simpl. split_and!; try done.
  intros Hm outcome. unfold deliver, emit. simpl. rewrite Hm. simpl.
  unfold execute_callback. destruct outcome; simpl; split_and!; try done.
  by rewrite app_nil_r.
Qed.

Lemma success_is_reported_once_witness :
  let s := run_schedule [Work; submit task_A; Work; Work; Tick 2] (boot sdk) in
  let r := {| subject := None; operation_name := "Controller.cb";
              output := PyInt 42; timestamp := 0; duration := 2;
              error := None |} in
  trace (step Work s) = [task_completed (callback task_A) r]
  /\ invoked (step Delivered (step Work s)) = [(callback task_A, r)].
Proof.
  intros s r.
  destruct (success_is_reported_once s task_A 0 (PyInt 42) "Controller.cb"
              eq_refl eq_refl eq_refl) as (Ht & _ & _ & _ & Hd).
  split; [exact Ht | exact (proj1 (Hd eq_refl (Returns tt)))].
Defined.

(** C4 (as stated) fails for a callback that can be called and has no
    [__qualname__]: the action of the task in flight returns 42, and the
    worker's step emits nothing; the [AttributeError] raised on reading the
    name ends the thread. *)
Lemma listener_gets_no_report :
  ~ return_is_reported
      (run_schedule [Work; submit task_A_listener; Work; Work] (boot sdk))
      task_A_listener 0.
Proof.
  intros H. destruct (H (PyInt 42) eq_refl eq_refl) as (r & _ & _ & Ht).
  vm_compute in Ht. discriminate Ht.
Qed.

Example listener_run :
  let s := run_schedule ([Work; submit task_A_listener] ++ turn) (boot sdk) in
  finished (thread_of s) = true
  /\ trace s = [] /\ reported (thread_of s) = [] /\ invoked s = [].
Proof. by split_and!. Qed.

(** C2 (as amended): for a task in flight whose action raises [e].  When [e]
    is an instance of one of the six classes of the [except] clause and the
    callback has a name the worker can read, the worker's step makes one
    report with [e] as error and no output, logs it, emits it on
    [task_errored] and on no other channel, and goes back to the head of the
    loop with its queue and its flag as they were; delivered, the signal is
    broadcast on [error_triggered] and no callback is invoked.  When [e] is
    an instance of none of them, the exception leaves [run]: the thread is
    over, nothing is reported and nothing is emitted. *)
Theorem domain_failure_is_reported s t ts e :
  pc (thread_of s) = Executing t ts ->
  action t (args t) (kwargs t) = Raises e ->
  let s' := step Work s in
  (isinstance e DOMAIN_FAILURES = true ->
   forall name,
     func_name (callback t) = Returns name ->
     let r := {| subject := find_drive (args t); operation_name := name;
                 output := PyNone; timestamp := ts; duration := now s - ts;
                 error := Some e |} in
     trace s' = trace s ++ [log_error r; task_errored r]
     /\ mailbox s' = mailbox s ++ [task_errored r]
     /\ reported (thread_of s') = reported (thread_of s) ++ [(t, r)]
     /\ pc (thread_of s') = LoopHead
     /\ queue (thread_of s') = queue (thread_of s)
     /\ running (thread_of s') = running (thread_of s)
     /\ (mailbox s = [] ->
         forall outcome,
           error_triggered (step (Deliver outcome) s')
           = error_triggered s ++ [r]
           /\ invoked (step (Deliver outcome) s') = invoked s
           /\ raised (step (Deliver outcome) s') = raised s))
  /\ (isinstance e DOMAIN_FAILURES = false ->
      pc (thread_of s') = Crashed t e
      /\ finished (thread_of s') = true
      /\ trace s' = trace s
      /\ mailbox s' = mailbox s
      /\ reported (thread_of s') = reported (thread_of s)).
Proof.
  intros Hpc Hact s'. subst s'.
  rewrite (work_executing _ _ _ Hpc). unfold loop_body, try_action.
  rewrite Hact. split.
  - intros -> name Hname. cbv zeta. rewrite Hname. simpl.
    split_and!; try done.
    intros Hm outcome. unfold deliver, emit. simpl. by rewrite Hm.
  - intros ->. simpl. split_and!; try done; by rewrite ?app_nil_r.
Qed.

Lemma domain_failure_is_reported_witness :
  let s := run_schedule [Work; submit task_B; Work; Work; Tick 2] (boot sdk) in
  let s' := run_schedule [Work; submit task_bug; Work; Work] (boot sdk) in
  let r := {| subject := None; operation_name := "Controller.cb";
              output := PyNone; timestamp := 0; duration := 2;
              error := Some no_dictionary |} in
  (trace (step Work s) = [log_error r; task_errored r]
   /\ pc (thread_of (step Work s)) = LoopHead)
  /\ pc (thread_of (step Work s')) = Crashed task_bug bug
  /\ trace (step Work s') = [].
Proof.
  intros s s' r. split.
  - destruct (proj1 (domain_failure_is_reported s task_B 0 no_dictionary
                       eq_refl eq_refl) eq_refl "Controller.cb" eq_refl)
      as (Ht & _ & _ & Hpc & _).
    split; [exact Ht | exact Hpc].
  - destruct (proj2 (domain_failure_is_reported s' task_bug 0 bug
                       eq_refl eq_refl) eq_refl)
      as (Hpc & _ & Ht & _).
    split; [exact Hpc | exact Ht].
Defined.

(** C2 (as stated) fails for a callback that can be called and has no
    [__qualname__]: the action of the task in flight raises a failure of the
    closed set, which is caught; then the [AttributeError] raised on reading
    the name ends the thread, and no report is logged or emitted. *)
Lemma listener_failure_ends_the_loop :
  ~ domain_failure_is_survived
      (run_schedule [Work; submit task_B_listener; Work; Work] (boot sdk))
      task_B_listener 0.
Proof.
  intros H. destruct (H no_dictionary eq_refl eq_refl eq_refl) as [Hf _].
  vm_compute in Hf. discriminate Hf.
Qed.

Example scenario_A_run :
  let s := run_schedule scenario_A (boot sdk) in
  map (fun cr => (output cr.2, error cr.2)) (invoked s) = [(PyInt 42, None)]
  /\ error_triggered s = [].
Proof. by split. Qed.

Example scenario_B_run :
  let s := run_schedule scenario_B (boot sdk) in
  map (fun r => (output r, error r)) (error_triggered s)
  = [(PyNone, Some {| exc_type := FileNotFoundError;
                      exc_msg := "No dictionary selected." |})]
  /\ invoked s = []
  /\ pc (thread_of s) = LoopHead.
Proof. by split_and!. Qed.

(** *** C1 *)





Example scenario_D_run :
  let s := run_schedule scenario_D (boot sdk) in
  pc (thread_of s) = Exited
  /\ before_sentinel (puts (thread_of s)) = [T2; T3]
  /\ executed (thread_of s) = [T2]
  /\ map fst (reported (thread_of s)) = [T2]
  /\ queue (thread_of s) = [Some T3; None].
Proof. by split_and!. Qed.

(** *** C3 *)













Example scenario_C_run :
  let s := run_schedule scenario_C (boot sdk) in
  map fst (invoked s) = [callback T1; callback T2; callback T3]
  /\ map (fun cr => output cr.2) (invoked s) = [PyInt 1; PyInt 2; PyInt 3]
  /\ map fst (reported (thread_of s)) = [T1; T2; T3]
  /\ error_triggered s = [].
Proof. by split_and!. Qed.

(** *** C5 *)

Lemma resolve_raises sdk name e :
  resolve sdk name = Raises e ->
  exc_type e = AttributeError \/ exc_type e = ValueError.
Proof.
  unfold resolve.
  destruct (split_dot name) as [|g [|m [|x l]]]; try (intros [= <-]; by right).
  destruct (sdk !! g) as [module|]; [|intros [= <-]; by left].
  destruct (module !! m); [done | intros [= <-]; by left].
Qed.

(** C5 (as amended): an exception raised while a symbolic command is
    resolved (an [AttributeError] for an unknown group or method, a
    [ValueError] for a name that does not split in two) is raised by [run]
    in the submitting context; no task is put on the queue, and the worker
    thread, its reports and its signals are as they were. *)
Theorem resolution_failure_reaches_the_caller s cb name a k e :
  resolve (mc (self s)) name = Raises e ->
  let s' := step (Submit cb (Symbolic name) a k) s in
  (exc_type e = AttributeError \/ exc_type e = ValueError)
  /\ raised s' = raised s ++ [e]
  /\ thread_of s' = thread_of s
  /\ trace s' = trace s
  /\ mailbox s' = mailbox s.
Proof.
  intros H s'. subst s'. split; [by eapply resolve_raises|].
  simpl. unfold run. by rewrite H.
Qed.

Lemma resolution_failure_reaches_the_caller_witness :
  let s := run_schedule [Work; Work] (boot sdk) in
  let s' := step unknown_group s in
  raised s' = [attribute_error "nosuch"] /\ thread_of s' = thread_of s.
Proof.
  intros s s'.
  assert (H : resolve (mc (self s)) "nosuch.get_register"
              = Raises (attribute_error "nosuch"))
    by (vm_compute; reflexivity).
  destruct (resolution_failure_reaches_the_caller s
              (PyFunction "Controller.cb") "nosuch.get_register" [] []
              (attribute_error "nosuch") H)
    as (_ & Hr & Ht & _).
  split; [exact Hr | exact Ht].
Defined.

(** C5 (as stated) fails: the submission of an unknown command group leaves
    the worker waiting on its queue, not terminated. *)
Lemma unknown_group_spares_the_worker :
  ~ resolution_failure_is_fatal (run_schedule [Work; Work] (boot sdk))
      (PyFunction "Controller.cb") "nosuch.get_register" [] [].
Proof.
  intros H.
  assert (Hres : resolve (mc (self (run_schedule [Work; Work] (boot sdk))))
                   "nosuch.get_register" = Raises (attribute_error "nosuch"))
    by (vm_compute; reflexivity).
  specialize (H _ Hres). vm_compute in H. discriminate H.
Qed.

Example worker_serves_after_unknown_group :
  let s := run_schedule ([Work; Work; unknown_group; submit T1] ++ turn
                         ++ [Delivered]) (boot sdk) in
  raised s = [attribute_error "nosuch"]
  /\ pc (thread_of s) = AtGet
  /\ map fst (invoked s) = [callback T1].
Proof. vm_compute. by split_and!. Qed.

Example malformed_name_is_a_ValueError :
  let s := step (Submit (PyFunction "Controller.cb")
                        (Symbolic "get_register") [] [])
                (run_schedule [Work; Work] (boot sdk)) in
  map exc_type (raised s) = [ValueError]
  /\ isinstance {| exc_type := ValueError; exc_msg := "" |} DOMAIN_FAILURES
     = true
  /\ pc (thread_of s) = AtGet
  /\ trace s = [].
Proof. vm_compute. by split_and!. Qed.

(** *** C6 *)

(** C6 (as amended): the worker's [stop] clears the flag, puts the sentinel
    and returns; it is [stop_motion_controller_thread] that blocks, in the
    [wait] that follows [stop]: whenever that [wait] has returned the loop
    is over.  And once [stop] has returned the loop does end: after at most
    [fuel] further steps of the worker, whatever else happens in between,
    the thread is finished and a pending [wait] returns. *)
Theorem service_stop_joins sdk sched :
  let s := run_schedule sched (boot sdk) in
  (joined s = true -> finished (thread_of s) = true)
  /\ (stop_returned s = true ->
      forall sched',
        (fuel (thread_of s) <= works sched')%nat ->
        let s' := run_schedule sched' s in
        finished (thread_of s') = true /\ joined (step Wait s') = true).
Proof.
  intros s. destruct (inv_run sched _ (inv_boot sdk)) as (Ht & _ & Hstop & Hjoin).
  fold s in Ht, Hstop, Hjoin. split; [done|].
  intros Hsr sched' Hfuel s'.
  assert (Hfin : finished (thread_of s') = true).
  { apply drain; [by destruct Ht as (_ & _ & _ & Hi & _) | by apply Hstop | done]. }
  split; [done|]. simpl. unfold wait. revert Hfin. unfold finished.
  by destruct (pc (thread_of s')).
Qed.

Lemma service_stop_joins_witness :
  let sched := [Work; submit T2; Work; Work] ++ stop_motion_controller_thread in
  let rest := [Work; Delivered; Work; Work; Work] in
  let s := run_schedule sched (boot sdk) in
  let s2 := run_schedule (sched ++ [Work; Work; Wait]) (boot sdk) in
  (stop_returned s = true /\ joined s = false
   /\ (fuel (thread_of s) <= works rest)%nat)
  /\ finished (thread_of (run_schedule rest s)) = true
  /\ joined s2 = true
  /\ finished (thread_of s2) = true.
Proof.
  intros sched rest s s2.
  assert (Hsr : stop_returned s = true) by (vm_compute; reflexivity).
  assert (Hfuel : (fuel (thread_of s) <= works rest)%nat)
    by (vm_compute; lia).
  assert (Hj2 : joined s2 = true) by (vm_compute; reflexivity).
  split_and!; [exact Hsr | vm_compute; reflexivity | exact Hfuel | |
               exact Hj2 |].
  - exact (proj1 (proj2 (service_stop_joins sdk sched) Hsr rest Hfuel)).
  - exact (proj1 (service_stop_joins sdk (sched ++ [Work; Work; Wait])) Hj2).
Defined.

(** C6 (as stated) fails: [stop] has returned and the loop has not
    terminated, the task that was in flight is still in flight. *)
Lemma stop_returns_before_the_loop_ends :
  ~ stop_joins (run_schedule stop_in_flight (boot sdk)).
Proof. intros H. specialize (H eq_refl). vm_compute in H. discriminate H. Qed.

(** *** C7 and C10 *)

Lemma find_drive_Some l d :
  find_drive l = Some d <->
  exists pre post,
    l = pre ++ PyDrive d :: post /\ Forall (fun v => is_drive v = false) pre.
Proof.
  split.
  - induction l as [|v l IH]; [done|].
    destruct v; simpl; intros H;
      try (destruct (IH H) as (pre & post & -> & Hpre);
           eexists (_ :: pre), post; split; [done | by constructor]).
    injection H as ->. by exists [], l.
  - intros (pre & post & -> & Hpre).
    induction Hpre as [|v pre Hv _ IH]; [done|]. by destruct v.
Qed.

Lemma find_drive_None l :
  find_drive l = None <-> Forall (fun v => is_drive v = false) l.
Proof.
  induction l as [|v l IH]; [done|]. split.
  - destruct v; simpl; intros H; try discriminate H;
      (constructor; [done | by apply IH]).
  - intros H. apply Forall_cons in H as [Hv Hl]. destruct v; try done; by apply IH.
Qed.

Lemma reported_fields sdk sched t r :
  (t, r) ∈ reported (thread_of (run_schedule sched (boot sdk))) ->
  derived_fields_ok (t, r).
Proof.
  intros Hin. destruct (inv_run sched _ (inv_boot sdk)) as ((_ & _ & _ & _ & Hd) & _).
  by apply (proj1 (Forall_forall _ _) Hd).
Qed.

(** C7: in every report the worker has made, the subject is the first
    [Drive] among the positional arguments of the task, and is absent when
    there is none; the operation name is the [__qualname__] of the callback,
    or of the function under it when the callback is a [partial]. *)
Theorem report_subject_and_name sdk sched t r :
  (t, r) ∈ reported (thread_of (run_schedule sched (boot sdk))) ->
  (forall d, subject r = Some d <->
     exists pre post, args t = pre ++ PyDrive d :: post
                      /\ Forall (fun v => is_drive v = false) pre)
  /\ (subject r = None <-> Forall (fun v => is_drive v = false) (args t))
  /\ (callback t = PyFunction (operation_name r)
      \/ callback t = PyPartial (operation_name r)).
Proof.
  intros Hin. destruct (reported_fields _ _ _ _ Hin) as [Hs Hn].
  simpl in Hs, Hn. rewrite Hs. split_and!.
  - intros d. apply find_drive_Some.
  - apply find_drive_None.
  - destruct (callback t); try done; injection Hn as <-; [by left | by right].
Qed.

Lemma report_subject_and_name_witness :
  (exists pre post,
     args enable_motor_task = pre ++ PyDrive Right :: post
     /\ Forall (fun v => is_drive v = false) pre)
  /\ (callback enable_motor_task
        = PyFunction (operation_name enable_motor_report)
      \/ callback enable_motor_task
        = PyPartial (operation_name enable_motor_report)).
Proof.
  assert (Hin : (enable_motor_task, enable_motor_report)
                ∈ reported (thread_of (run_schedule
                     [Work; submit enable_motor_task; Tick 3; Work; Work;
                      Tick 4; Work] (boot sdk))))
    by (vm_compute; apply list_elem_of_singleton; reflexivity).
  destruct (report_subject_and_name _ _ _ _ Hin) as (Hs & _ & Hn).
  split; [exact (proj1 (Hs Right) eq_refl) | exact Hn].
Defined.

(** C10: the search for the subject looks at the positional arguments only:
    when none of them is a [Drive], every signal and log entry the worker
    emits for the task carries a report without subject, whatever the
    keyword arguments hold. *)
Theorem keyword_drive_is_not_found now th t ts :
  pc th = Executing t ts ->
  Forall (fun v => is_drive v = false) (args t) ->
  Forall (fun ev => subject (report_of ev) = None) (Worker.step now th).2.
Proof.
  intros Hpc Hargs. apply find_drive_None in Hargs.
  unfold Worker.step. rewrite Hpc. unfold loop_body.
  destruct (try_action t) as [[out exn]|e]; [|constructor].
  destruct (func_name (callback t)); [|constructor].
  unfold events_of. simpl. destruct exn; by repeat constructor.
Qed.

Lemma keyword_drive_is_not_found_witness :
  Forall (fun ev => subject (report_of ev) = None)
         (Worker.step 9
            (goto (Executing keyword_only_task 5) (start init))).2
  /\ (Worker.step 9 (goto (Executing keyword_only_task 5) (start init))).2
     = [task_completed (callback keyword_only_task)
          {| subject := None;
             operation_name := "MotorController.enable_callback";
             output := PyNone; timestamp := 5; duration := 4;
             error := None |}].
Proof.
  split; [|reflexivity].
  apply (keyword_drive_is_not_found 9 _ keyword_only_task 5);
    [reflexivity | constructor].
Defined.

(** *** C8 *)




Example keyword_named_command :
  let r := run_on_thread get_register (Service.new sdk)
             [PyFunction "Controller.cb"; PyStr "CL_POS_FBK_VALUE"]
             [("command", PyStr "read")] in
  r.1 = Service.new sdk
  /\ r.2 = Raises {| exc_type := TypeError;
                     exc_msg := "run() got multiple values for argument" |}.
Proof. by split. Qed.

(** Outside C8: a wrapped call without a positional argument raises
    [IndexError] after the body has run, and an exception of the body
    reaches the caller; in both cases nothing is put on the queue. *)
Lemma run_on_thread_without_positional func sv kw on_thread :
  func sv [] kw = Returns on_thread ->
  (run_on_thread func sv [] kw).1 = sv
  /\ exists e, (run_on_thread func sv [] kw).2 = Raises e
               /\ exc_type e = IndexError.
Proof. intros H. unfold run_on_thread. rewrite H. split; [done|]. by eexists. Qed.

Lemma run_on_thread_body_raises func sv a kw e :
  func sv a kw = Raises e -> run_on_thread func sv a kw = (sv, Raises e).
Proof. intros H. unfold run_on_thread. by rewrite H. Qed.

Example callback_by_keyword :
  let r := run_on_thread disconnect_drives (Service.new sdk) []
             [("report_callback", PyFunction "Controller.cb")] in
  r.1 = Service.new sdk
  /\ r.2 = Raises {| exc_type := IndexError;
                     exc_msg := "tuple index out of range" |}.
Proof. by split. Qed.

(** *** C9 *)

Lemma stop_poller_thread_eq alias sv :
  stop_poller_thread alias sv
  = (match poller_threads sv !! alias with
     | Some p =>
         if isRunning p
         then with_pollers (<[alias := PollerThread_stop p]> (poller_threads sv)) sv
         else sv
     | None => sv
     end, Returns tt).
Proof.
  unfold stop_poller_thread, getitem.
  destruct (poller_threads sv !! alias) as [p|] eqn:Hp.
  - rewrite bool_decide_eq_true_2 by (apply elem_of_dom; by eexists).
    by destruct (isRunning p).
  - rewrite bool_decide_eq_false_2; [done|].
    rewrite elem_of_dom, Hp. by intros [? ?].
Qed.

Lemma stop_poller_thread_twice alias sv :
  stop_poller_thread alias (stop_poller_thread alias sv).1
  = ((stop_poller_thread alias sv).1, Returns tt).
Proof.
  rewrite (stop_poller_thread_eq alias sv). simpl.
  rewrite stop_poller_thread_eq. f_equal.
  destruct (poller_threads sv !! alias) as [p|] eqn:Hp.
  - destruct (isRunning p) eqn:Hr.
    + simpl. by rewrite lookup_insert_eq.
    + by rewrite Hp, Hr.
  - by rewrite Hp.
Qed.

(** C9: [stop_poller_thread] never raises; it stops the poller registered
    under the alias when that poller is running, and leaves the service as
    it is otherwise (no poller under the alias, or one that is not
    running); called a second time in a row it changes nothing. *)
Theorem stop_poller_thread_only_when_running alias sv :
  (stop_poller_thread alias sv).2 = Returns tt
  /\ (stop_poller_thread alias sv).1
     = match poller_threads sv !! alias with
       | Some p =>
           if isRunning p
           then with_pollers
                  (<[alias := PollerThread_stop p]> (poller_threads sv)) sv
           else sv
       | None => sv
       end
  /\ stop_poller_thread alias (stop_poller_thread alias sv).1
     = ((stop_poller_thread alias sv).1, Returns tt).
Proof.
  split_and!; [| |apply stop_poller_thread_twice];
    by rewrite (stop_poller_thread_eq alias sv).
Qed.

Example scenario_E :
  let created := (create_poller_thread "left" [PyStr "CL_POS_FBK_VALUE"] 100
                    (Service.new sdk)).1 in
  let started :=
    with_pollers (PollerThread_start <$> poller_threads created) created in
  let once := (stop_poller_thread "left" started).1 in
  isRunning <$> poller_threads started !! "left" = Some true
  /\ isRunning <$> poller_threads once !! "left" = Some false
  /\ stop_poller_thread "left" once = (once, Returns tt)
  /\ stop_poller_thread "right" once = (once, Returns tt).
Proof.
  intros created started once. split_and!.
  - vm_compute. reflexivity.
  - vm_compute. reflexivity.
  - apply stop_poller_thread_twice.
  - rewrite stop_poller_thread_eq. by vm_compute.
Qed.

(** ** Further properties of the worker *)

Import Ledger.

Lemma step_env_cases l s :
  l <> Work ->
  thread_of (step l s) = thread_of s
  \/ (exists item, thread_of (step l s) = put item (thread_of s))
  \/ (l = StopFlag /\ thread_of (step l s) = stop_flag (thread_of s)).
Proof.
  intros Hl. destruct l as [dt| |cb cmd a k|func a k| | | |o]; simpl; try done.
  - by left.
  - rewrite thread_of_called. unfold run.
    destruct (match cmd with Symbolic name => resolve (mc (self s)) name
                           | Callable m => Returns m end); simpl;
      [right; left; by eexists | by left].
  - rewrite thread_of_called. unfold run_on_thread.
    destruct (func (self s) a k); [|by left].
    destruct a; [by left|].
    destruct (shadows_run_parameter k); [by left|].
    simpl. right; left; by eexists.
  - by right; right.
  - right; left. by eexists.
  - left. unfold wait. by destruct (pc (thread_of s)).
  - left. unfold deliver. destruct (mailbox s) as [|[cb r|r|r] rest]; try done.
    unfold execute_callback. by destruct o.
Qed.

(** *** The counter of unfinished tasks *)

Lemma sentinels_snoc l i :
  sentinels (l ++ [i])
  = (sentinels l + match i with None => 1 | Some _ => 0 end)%nat.
Proof.
  unfold sentinels. rewrite List.filter_app, length_app. by destruct i.
Qed.

Lemma outstanding_step now th :
  unfinished th = outstanding th ->
  unfinished (Worker.step now th).1 = outstanding (Worker.step now th).1.
Proof.
  unfold outstanding, Worker.step. intros H.
  destruct (pc th) as [| | | |t ts| |t e] eqn:Hpc; simpl in *;
    rewrite ?Hpc; simpl; try done.
  - by destruct (running th).
  - unfold queue_get. destruct (queue th) as [|[t|] q] eqn:Hq; simpl in *.
    + by rewrite Hq, Hpc.
    + rewrite sentinels_snoc. lia.
    + rewrite sentinels_snoc. lia.
  - unfold loop_body. destruct (try_action t) as [[out exn]|e]; simpl; [|done].
    destruct (func_name (callback t)); simpl; [lia | done].
Qed.

Lemma outstanding_run sched : forall s,
  unfinished (thread_of s) = outstanding (thread_of s) ->
  unfinished (thread_of (run_schedule sched s))
  = outstanding (thread_of (run_schedule sched s)).
Proof.
  induction sched as [|l sched IH]; intros s H; [done|].
  simpl. apply IH. destruct (work_or_not l) as [->|Hl].
  - rewrite thread_of_work. by apply outstanding_step.
  - destruct (step_env_cases l s Hl) as [->|[[item ->]|[_ ->]]]; try done.
    unfold outstanding in *. simpl. rewrite length_app. simpl. lia.
Qed.

(** X1: the counter of unfinished tasks of the queue is, at every moment,
    the number of items still queued, plus one while a task is in flight
    (or after it ended the thread), plus one for each sentinel taken; so
    [task_done] is never called on a counter at zero, and the counter does
    not come back to zero once the sentinel was taken. *)
Theorem unfinished_counts_outstanding sdk sched :
  let th := thread_of (run_schedule sched (boot sdk)) in
  unfinished th = outstanding th.
Proof. by apply outstanding_run. Qed.

(** *** A finished thread *)

Lemma finished_frozen sched : forall s,
  finished (thread_of s) = true ->
  let s' := run_schedule sched s in
  pc (thread_of s') = pc (thread_of s)
  /\ reported (thread_of s') = reported (thread_of s)
  /\ taken (thread_of s') = taken (thread_of s)
  /\ trace s' = trace s
  /\ queue (thread_of s) `prefix_of` queue (thread_of s').
Proof.
  induction sched as [|l sched IH]; intros s Hf; [done|].
  simpl.
  assert (Hstep : pc (thread_of (step l s)) = pc (thread_of s)
          /\ reported (thread_of (step l s)) = reported (thread_of s)
          /\ taken (thread_of (step l s)) = taken (thread_of s)
          /\ trace (step l s) = trace s
          /\ queue (thread_of s) `prefix_of` queue (thread_of (step l s))).
  { destruct (work_or_not l) as [->|Hl].
    - rewrite thread_of_work, finished_step by done. simpl.
      revert Hf. unfold finished, Worker.step.
      destruct (pc (thread_of s)); try done; simpl; by rewrite app_nil_r.
    - assert (Htr : trace (step l s) = trace s).
      { destruct l as [dt| |cb cmd a k|func a k| | | |o]; simpl; try done.
        + by destruct (called_fields (run cb cmd a k (self s)) s) as (-> & _).
        + by destruct (called_fields (run_on_thread func (self s) a k) s)
            as (-> & _).
        + unfold wait. by destruct (pc (thread_of s)).
        + unfold deliver. destruct (mailbox s) as [|[cb r|r|r] rest]; try done.
          unfold execute_callback. by destruct o. }
      destruct (step_env_cases l s Hl) as [->|[[item ->]|[_ ->]]];
        split_and!; try done. simpl. by apply prefix_app_r. }
  destruct Hstep as (Hpc & Hr & Ht & Htr & Hq).
  destruct (IH (step l s)) as (Hpc' & Hr' & Ht' & Htr' & Hq').
  { unfold finished in *. by rewrite Hpc. }
  split_and!; try congruence. by etrans.
Qed.

(** X2: once the thread is over (the loop was left or an exception ended
    it) nothing brings it back: whatever is submitted or stopped afterwards,
    no further task is taken, reported or signalled; later submissions only
    lengthen the queue. *)
Theorem finished_thread_stays_silent s sched :
  finished (thread_of s) = true ->
  let s' := run_schedule sched s in
  pc (thread_of s') = pc (thread_of s)
  /\ reported (thread_of s') = reported (thread_of s)
  /\ taken (thread_of s') = taken (thread_of s)
  /\ trace s' = trace s
  /\ queue (thread_of s) `prefix_of` queue (thread_of s').
Proof. apply finished_frozen. Qed.

Lemma finished_thread_stays_silent_witness :
  let s := run_schedule scenario_D (boot sdk) in
  let s' := run_schedule ([submit T1] ++ turn ++ [Delivered]) s in
  reported (thread_of s') = reported (thread_of s)
  /\ trace s' = trace s
  /\ queue (thread_of s') = [Some T3; None; Some T1].
Proof.
  intros s s'.
  destruct (finished_thread_stays_silent s ([submit T1] ++ turn ++ [Delivered])
              eq_refl) as (_ & Hr & _ & Ht & _).
  split_and!; [exact Hr | exact Ht | reflexivity].
Defined.

(** *** From submission to report *)

(** X3: a waiting worker (blocked in [get] on an empty queue) that is
    handed one task by [run] with a callable command takes it at its next
    step, stamped with the time of that step, and at the step after it
    reports it: the report is the only thing emitted, it has the drive found
    in the positional arguments and the name of the callback, and the worker
    is back at the head of its loop with an empty queue. *)
Theorem submitted_task_is_served s cb method a k v name dt :
  pc (thread_of s) = AtGet ->
  queue (thread_of s) = [] ->
  method a k = Returns v ->
  func_name cb = Returns name ->
  let t := {| action := method; callback := cb; args := a; kwargs := k |} in
  let r := {| subject := find_drive a; operation_name := name; output := v;
              timestamp := now s; duration := Z.of_nat dt; error := None |} in
  let s' := run_schedule [Submit cb (Callable method) a k; Work; Tick dt; Work]
                         s in
  trace s' = trace s ++ [task_completed cb r]
  /\ reported (thread_of s') = reported (thread_of s) ++ [(t, r)]
  /\ pc (thread_of s') = LoopHead
  /\ queue (thread_of s') = []
  /\ raised s' = raised s.
Proof.
  intros Hpc Hq Hm Hn t r s'. subst s' t r.
  unfold run_schedule, thread_of in *. simpl.
  unfold Worker.step. simpl. rewrite Hpc. unfold queue_get. simpl.
  rewrite Hq. simpl. unfold loop_body, try_action. simpl.
  rewrite Hm, Hn. simpl.
  replace (now s + Z.of_nat dt - now s) with (Z.of_nat dt) by lia.
  split_and!; try done. by rewrite app_nil_r.
Qed.

Lemma submitted_task_is_served_witness :
  let s := run_schedule [Work; Work; Tick 7] (boot sdk) in
  let s' := run_schedule [submit task_A; Work; Tick 2; Work] s in
  trace s'
  = [task_completed (callback task_A)
       {| subject := None; operation_name := "Controller.cb";
          output := PyInt 42; timestamp := 7; duration := 2;
          error := None |}]
  /\ pc (thread_of s') = LoopHead.
Proof.
  intros s s'.
  destruct (submitted_task_is_served s (callback task_A) (action task_A) [] []
              (PyInt 42) "Controller.cb" 2 eq_refl eq_refl eq_refl eq_refl)
    as (Ht & _ & Hpc & _).
  split; [exact Ht | exact Hpc].
Defined.

(** *** The classes the worker handles *)

Lemma issubclass_Subclass n bs d :
  d <> Subclass n bs ->
  issubclass (Subclass n bs) d = existsb (fun b => issubclass b d) bs.
Proof.
  intros Hd. unfold issubclass. simpl.
  apply eq_true_iff_eq. rewrite bool_decide_eq_true, existsb_exists.
  rewrite elem_of_cons, list_elem_of_In, in_flat_map.
  split.
  - intros [?|(b & Hb & Hin)]; [done|]. exists b. split; [done|].
    apply bool_decide_eq_true. by apply list_elem_of_In.
  - intros (b & Hb & Hin). right. exists b. split; [done|].
    apply bool_decide_eq_true in Hin. by apply list_elem_of_In.
Qed.

Lemma existsb_swap {A B} (f : A -> B -> bool) (l : list A) (k : list B) :
  existsb (fun a => existsb (f a) k) l
  = existsb (fun b => existsb (fun a => f a b) l) k.
Proof.
  apply eq_true_iff_eq. rewrite !existsb_exists. split.
  - intros (a & Ha & H). apply existsb_exists in H as (b & Hb & H).
    exists b. split; [done|]. apply existsb_exists. eauto.
  - intros (b & Hb & H). apply existsb_exists in H as (a & Ha & H).
    exists a. split; [done|]. apply existsb_exists. eauto.
Qed.

(** X4: the [except] clause of [run] goes by [isinstance]: an exception of
    a class declared over the bases [bs] (a class of the caller's or of the
    SDK's own, not one of the six the clause names) is handled by the worker
    exactly when an exception of one of its bases is.  One handled base among
    several is enough, and the bases are followed up to their roots. *)
Theorem derived_exception_is_handled_through_a_base n bs msg msg' :
  isinstance {| exc_type := Subclass n bs; exc_msg := msg |} DOMAIN_FAILURES
  = existsb (fun b => isinstance {| exc_type := b; exc_msg := msg' |}
                                 DOMAIN_FAILURES) bs.
Proof.
  unfold isinstance. cbn [exc_type]. rewrite existsb_swap.
  unfold DOMAIN_FAILURES. cbn [existsb].
  by rewrite !issubclass_Subclass.
Qed.

Example UnsupportedOperation_is_handled :
  isinstance {| exc_type := Subclass "UnsupportedOperation" [OSError; ValueError];
                exc_msg := "not writable" |} DOMAIN_FAILURES = true
  /\ isinstance {| exc_type := OSError; exc_msg := "not writable" |}
       DOMAIN_FAILURES = false
  /\ isinstance {| exc_type := Subclass "ILTimeoutError" [ILError];
                   exc_msg := "timeout" |} DOMAIN_FAILURES = true
  /\ isinstance {| exc_type := Subclass "Oops" [RuntimeError];
                   exc_msg := "oops" |} DOMAIN_FAILURES = false.
Proof. vm_compute. by split_and!. Qed.

(** *** What a report says about its task *)

Lemma outcome_step now th :
  Forall outcome_ok (reported th) ->
  Forall outcome_ok (reported (Worker.step now th).1).
Proof.
  intros H. unfold Worker.step.
  destruct (pc th) as [| | | |t ts| |t e] eqn:Hpc; simpl; try done.
  - unfold queue_get. by destruct (queue th).
  - unfold loop_body, try_action.
    destruct (action t (args t) (kwargs t)) as [v|e] eqn:Hact.
    + destruct (func_name (callback t)); [|done].
      simpl. apply Forall_app. split; [done|]. by repeat constructor.
    + destruct (isinstance e DOMAIN_FAILURES) eqn:Hi; [|done].
      destruct (func_name (callback t)); [|done].
      simpl. apply Forall_app. split; [done|]. by repeat constructor.
Qed.

Lemma outcome_run sched : forall s,
  Forall outcome_ok (reported (thread_of s)) ->
  Forall outcome_ok (reported (thread_of (run_schedule sched s))).
Proof.
  induction sched as [|l sched IH]; intros s H; [done|].
  simpl. apply IH. destruct (work_or_not l) as [->|Hl].
  - rewrite thread_of_work. by apply outcome_step.
  - by rewrite (env_move_reported _ _ (step_env_move l s Hl)).
Qed.

(** X5: every report the worker has made tells what the action of its task
    did when called on the task's arguments: a report without error carries
    the value the action returned; a report with an error carries the
    exception the action raised, which is one the [except] clause handles,
    and no output. *)
Theorem reports_tell_the_outcome sdk sched t r :
  (t, r) ∈ reported (thread_of (run_schedule sched (boot sdk))) ->
  match error r with
  | None => action t (args t) (kwargs t) = Returns (output r)
  | Some e =>
      action t (args t) (kwargs t) = Raises e
      /\ output r = PyNone
      /\ isinstance e DOMAIN_FAILURES = true
  end.
Proof.
  intros Hin.
  assert (H : Forall outcome_ok
                (reported (thread_of (run_schedule sched (boot sdk)))))
    by (apply outcome_run; constructor).
  exact (proj1 (Forall_forall _ _) H _ Hin).
Qed.

Lemma reports_tell_the_outcome_witness :
  action task_B (args task_B) (kwargs task_B) = Raises no_dictionary
  /\ isinstance no_dictionary DOMAIN_FAILURES = true.
Proof.
  assert (Hin : (task_B,
                 {| subject := None; operation_name := "Controller.cb";
                    output := PyNone; timestamp := 0; duration := 0;
                    error := Some no_dictionary |})
                ∈ reported (thread_of (run_schedule scenario_B (boot sdk))))
    by (vm_compute; apply list_elem_of_singleton; reflexivity).
  destruct (reports_tell_the_outcome _ _ _ _ Hin) as (Ha & _ & Hi).
  split; [exact Ha | exact Hi].
Defined.

(** *** Leaving the loop *)

Lemma exit_inv_step l s :
  thread_inv (thread_of s) -> exit_inv (thread_of s) ->
  exit_inv (thread_of (step l s)).
Proof.
  intros (_ & [ts Hs] & _) Hex. destruct (work_or_not l) as [->|Hl].
  - rewrite thread_of_work. unfold Worker.step, exit_inv in *.
    generalize dependent (thread_of s). intros th Hs Hex.
    destruct (pc th) as [| | | |t ts0| |t e] eqn:Hpc; simpl;
      try done; try (by rewrite Hpc).
    + destruct (running th) eqn:Hr; intros H; [discriminate H | by left].
    + unfold queue_get. destruct (queue th) as [|[t|] q]; simpl.
      * by rewrite Hpc.
      * done.
      * intros _. right. exists ts.
        destruct Hs as [->|[_ ?]]; [done | congruence].
    + unfold loop_body. destruct (try_action t) as [[out exn]|e]; [|done].
      by destruct (func_name (callback t)).
  - destruct (step_env_cases l s Hl) as [->|[[item ->]|[_ ->]]]; try done.
    intros _. by left.
Qed.

Lemma exit_inv_run sched : forall s,
  thread_inv (thread_of s) -> exit_inv (thread_of s) ->
  exit_inv (thread_of (run_schedule sched s)).
Proof.
  induction sched as [|l sched IH]; intros s Ht Hex; [done|].
  simpl. apply IH; [by apply step_thread_inv | by apply exit_inv_step].
Qed.

(** X6: the loop is left in two ways only, on the sentinel or on a cleared
    flag.  So a worker that has exited with its flag still set (no [stop]
    cleared it, or [run] set it again after a [stop] that came before the
    thread's first statement) has executed every task put on the queue
    before the sentinel. *)
Theorem exit_with_flag_set_has_drained sdk sched :
  let th := thread_of (run_schedule sched (boot sdk)) in
  pc th = Exited ->
  running th = true ->
  executed th = before_sentinel (puts th).
Proof.
  intros th Hpc Hrun.
  destruct (inv_run sched _ (inv_boot sdk)) as (Ht & _ & _). fold th in Ht.
  assert (Hex : exit_inv th).
  { apply exit_inv_run; [apply thread_inv_start | done]. }
  destruct (Hex Hpc) as [Hf|[ts Hts]]; [congruence|].
  destruct Ht as (Hq & _). unfold executed. rewrite Hq, Hts.
  rewrite omap_id_snoc, omap_id_map_Some, app_nil_r, <- app_assoc,
    before_sentinel_app. simpl. by rewrite app_nil_r.
Qed.

Lemma exit_with_flag_set_has_drained_witness :
  let sched := [submit T2; submit T3; StopFlag; StopPut; Work]
               ++ turn ++ turn ++ [Work; Work] in
  let th := thread_of (run_schedule sched (boot sdk)) in
  pc th = Exited /\ running th = true /\ executed th = [T2; T3].
Proof.
  intros sched th.
  assert (Hpc : pc th = Exited) by (vm_compute; reflexivity).
  assert (Hrun : running th = true) by (vm_compute; reflexivity).
  pose proof (exit_with_flag_set_has_drained sdk sched Hpc Hrun) as H.
  split_and!; [exact Hpc | exact Hrun | exact H].
Defined.

(** *** Callbacks *)

(** X18: a callback whose name cannot be read ends the thread.  For a task
    in flight whose action returns, or raises a failure the worker handles,
    an exception raised on reading the name of the callback (a callback
    that is neither a function nor a partial over one) leaves [run]: the
    thread is over, and no report is made or emitted for the task. *)
Theorem unnamed_callback_ends_the_thread s t ts e :
  pc (thread_of s) = Executing t ts ->
  func_name (callback t) = Raises e ->
  (exists out, try_action t = Returns out) ->
  let s' := step Work s in
  pc (thread_of s') = Crashed t e
  /\ exc_type e = AttributeError
  /\ finished (thread_of s') = true
  /\ reported (thread_of s') = reported (thread_of s)
  /\ trace s' = trace s
  /\ mailbox s' = mailbox s.
Proof.
  intros Hpc Hn [[out exn] Hty] s'. subst s'.
  rewrite (work_executing _ _ _ Hpc). unfold loop_body. rewrite Hty, Hn.
  simpl. split_and!; try done; try by rewrite app_nil_r.
  revert Hn. unfold func_name. by destruct (callback t); intros [= <-].
Qed.

Lemma unnamed_callback_ends_the_thread_witness :
  let t := {| action := succeed (PyInt 42); callback := PyNone; args := [];
              kwargs := [] |} in
  let s := run_schedule [Work; submit t; Work; Work] (boot sdk) in
  finished (thread_of (step Work s)) = true /\ trace (step Work s) = [].
Proof.
  intros t s.
  destruct (unnamed_callback_ends_the_thread s t 0
              {| exc_type := AttributeError; exc_msg := "__qualname__" |}
              eq_refl eq_refl (ex_intro _ (PyInt 42, None) eq_refl))
    as (_ & _ & Hf & _ & Ht & _).
  split; [exact Hf | exact Ht].
Defined.

(** ** Further properties of the service *)

(** *** Symbolic commands *)

Lemma split_dot_nonempty s : split_dot s <> [].
Proof.
  destruct s as [|c rest]; simpl; [done|].
  destruct (Ascii.eqb c "."); [done|]. by destruct (split_dot rest).
Qed.

Lemma split_dot_join s : String.concat "." (split_dot s) = s.
Proof.
  induction s as [|c rest IH]; [done|]. simpl.
  destruct (Ascii.eqb_spec c "."%char) as [->|Hc].
  - pose proof (split_dot_nonempty rest) as Hne.
    destruct (split_dot rest) as [|p ps]; [done|].
    change (String.concat "." ("" :: p :: ps))
      with ("" +:+ "." +:+ String.concat "." (p :: ps)).
    by rewrite IH.
  - pose proof (split_dot_nonempty rest) as Hne.
    destruct (split_dot rest) as [|p [|q ps]]; [done| |].
    + simpl in *. by rewrite IH.
    + change (String.concat "." (String c p :: q :: ps))
        with (String c (p +:+ "." +:+ String.concat "." (q :: ps))).
      change (String.concat "." (p :: q :: ps))
        with (p +:+ "." +:+ String.concat "." (q :: ps)) in IH.
      by rewrite IH.
Qed.

Lemma split_dot_parts s : Forall (fun p => has_dot p = false) (split_dot s).
Proof.
  induction s as [|c rest IH]; [by constructor|]. simpl.
  destruct (Ascii.eqb c ".") eqn:Hc; [by constructor|].
  destruct (split_dot rest) as [|p ps]; [by repeat constructor; simpl; rewrite Hc|].
  apply Forall_cons in IH as [Hp Hps]. constructor; [|done].
  simpl. by rewrite Hc.
Qed.

Lemma split_dot_no_dot s : has_dot s = false -> split_dot s = [s].
Proof.
  induction s as [|c rest IH]; [done|]. simpl.
  destruct (Ascii.eqb c "."); [done|]. simpl. intros H. by rewrite IH.
Qed.

Lemma split_dot_app g m :
  has_dot g = false -> split_dot (g +:+ "." +:+ m) = g :: split_dot m.
Proof.
  induction g as [|c rest IH]; [done|]. simpl.
  destruct (Ascii.eqb c "."); [done|]. simpl. intros H.
  change (split_dot (rest +:+ String "." m)) with (split_dot (rest +:+ "." +:+ m)).
  by rewrite IH.
Qed.

(** X7: a symbolic command is resolved exactly when it is the name of a
    group of the handle, one dot, and the name of a method of that group,
    with no further dot; the task then carries that method as its action.
    Every other string (no dot, two dots, unknown group, unknown method)
    makes [run] raise and leaves the queue as it is. *)
Theorem symbolic_command_resolution (sdk : gmap string (gmap string Action))
    name method :
  resolve sdk name = Returns method
  <-> exists g m module,
        name = g +:+ "." +:+ m
        /\ has_dot g = false /\ has_dot m = false
        /\ sdk !! g = Some module /\ module !! m = Some method.
Proof.
  split.
  - unfold resolve. intros H.
    pose proof (split_dot_join name) as Hj.
    pose proof (split_dot_parts name) as Hp.
    destruct (split_dot name) as [|g [|m [|x l]]]; try done.
    destruct (sdk !! g) as [module|] eqn:Hg; [|done].
    destruct (module !! m) as [a|] eqn:Hm; [|done].
    injection H as ->.
    apply Forall_cons in Hp as [Hpg Hp]. apply Forall_cons in Hp as [Hpm _].
    exists g, m, module. by split_and!.
  - intros (g & m & module & -> & Hg & Hm & Hsg & Hsm).
    unfold resolve. rewrite split_dot_app, split_dot_no_dot by done.
    by rewrite Hsg, Hsm.
Qed.

(** ** Properties of the operations run on the thread *)

Import Operations.

Section OperationsFacts.

Variable mc : Handle.
Variable parse : string -> parse_result.
Variable stringify_can_device_enum : pyvalue -> string.

Local Abbreviation check_dictionary_format := (check_dictionary_format parse).
Local Abbreviation connect_drives :=
  (connect_drives mc parse stringify_can_device_enum).
Local Abbreviation connect_one := (connect_one mc stringify_can_device_enum).
Local Abbreviation expected_calls :=
  (expected_calls stringify_can_device_enum).
Local Abbreviation expected_calls_one :=
  (expected_calls_one stringify_can_device_enum).
Local Abbreviation valid := (valid parse).
Local Abbreviation scan_servos := (scan_servos mc stringify_can_device_enum).

(** *** [check_dictionary_format] *)

Lemma check_dictionary_format_cases filepath :
  match parse filepath with
  | Fails e => check_dictionary_format filepath = Raises e
  | Document device =>
      match check_dictionary_format filepath with
      | Returns CANopen =>
          exists attrib, device = Some attrib
                         /\ attrib !! "Interface" = Some "CAN"
      | Returns EtherCAT =>
          exists attrib, device = Some attrib
                         /\ attrib !! "Interface" = Some "ETH"
      | Returns OtherProtocol => False
      | Raises e =>
          (exc_type e = ILError \/ exc_type e = KeyError)
          /\ isinstance e DOMAIN_FAILURES = true
          /\ (forall attrib, device = Some attrib ->
              attrib !! "Interface" <> Some "CAN"
              /\ attrib !! "Interface" <> Some "ETH")
      end
  end.
Proof.
  unfold Operations.check_dictionary_format.
  destruct (parse filepath) as [e|[attrib|]]; [done| |].
  - destruct (attrib !! "Interface") as [i|] eqn:Hi.
    + destruct (decide (i = INTERFACE_CAN)) as [->|Hcan]; [by eexists|].
      destruct (decide (i = INTERFACE_ETH)) as [->|Heth]; [by eexists|].
      split_and!; [by left | done |].
      unfold INTERFACE_CAN, INTERFACE_ETH in *.
      intros ? [= <-]. rewrite Hi. split; congruence.
    + split_and!; [by right | done |].
      intros ? [= <-]. by rewrite Hi.
  - split_and!; [by left | done | done].
Qed.

(** X9: [check_dictionary_format] passes on the exception of [ET.parse];
    on a document it answers CANopen exactly for a device element whose
    [Interface] is "CAN", EtherCAT exactly for "ETH", never any other
    protocol, and what it raises itself (no device element, no [Interface]
    attribute, another interface) is an [ILError] or a [KeyError], both
    handled by the worker. *)
Theorem check_dictionary_format_outcomes filepath :
  match parse filepath with
  | Fails e => check_dictionary_format filepath = Raises e
  | Document device =>
      match check_dictionary_format filepath with
      | Returns CANopen =>
          exists attrib, device = Some attrib
                         /\ attrib !! "Interface" = Some "CAN"
      | Returns EtherCAT =>
          exists attrib, device = Some attrib
                         /\ attrib !! "Interface" = Some "ETH"
      | Returns OtherProtocol => False
      | Raises e =>
          (exc_type e = ILError \/ exc_type e = KeyError)
          /\ isinstance e DOMAIN_FAILURES = true
          /\ (forall attrib, device = Some attrib ->
              attrib !! "Interface" <> Some "CAN"
              /\ attrib !! "Interface" <> Some "ETH")
      end
  end.
Proof. apply check_dictionary_format_cases. Qed.

(** *** [connect_drives] *)

Lemma valid_true dm :
  valid dm = true ->
  no_dictionary (dictionary dm) = false
  /\ check_dictionary_format (default "" (dictionary dm))
     = Returns (connection (base dm))
  /\ left_id dm <> right_id dm
  /\ (connection (base dm) = CANopen \/ connection (base dm) = EtherCAT).
Proof.
  unfold Operations.valid. intros H.
  apply andb_prop in H as [H Hid]. apply andb_prop in H as [Hd Hc].
  apply negb_true_iff in Hd. apply negb_true_iff in Hid.
  apply bool_decide_eq_false in Hid.
  destruct (check_dictionary_format (default "" (dictionary dm)))
    as [p|e] eqn:Hchk; [|done].
  apply bool_decide_eq_true in Hc. subst p. split_and!; try done.
  pose proof (check_dictionary_format_cases (default "" (dictionary dm)))
    as Ho.
  rewrite Hchk in Ho. destruct (parse (default "" (dictionary dm))); [done|].
  destruct (connection (base dm)); [by left | by right | done].
Qed.

(** X10: [connect_drives] checks before it acts.  When the dictionary is
    not selected, cannot be read as a CANopen or EtherCAT dictionary, is of
    another protocol than the connection, or when the two node ids are
    equal, it raises and the world is as it was: no call was made on the
    handle. *)
Theorem connect_drives_checks_first dm (w : world mc) :
  valid dm = false ->
  exists e, connect_drives dm w = (w, Raises e).
Proof.
  unfold Operations.valid, Operations.connect_drives, raise. intros H.
  destruct (no_dictionary (dictionary dm)); [by eexists|].
  destruct (check_dictionary_format (default "" (dictionary dm)))
    as [p|e]; [|by eexists].
  simpl in H. destruct (decide (p <> connection (base dm))) as [|Heq];
    [by eexists|].
  apply dec_stable in Heq. rewrite bool_decide_eq_true_2 in H by done.
  simpl in H. apply negb_false_iff, bool_decide_eq_true in H.
  rewrite decide_True by done. by eexists.
Qed.

(** X11: with a dictionary that is selected and matches the connection,
    two node ids that are both absent count as equal: [connect_drives]
    raises "Node IDs cannot be the same." and connects nothing. *)
Theorem connect_drives_without_ids dm (w : world mc) :
  no_dictionary (dictionary dm) = false ->
  check_dictionary_format (default "" (dictionary dm))
  = Returns (connection (base dm)) ->
  left_id dm = None ->
  right_id dm = None ->
  connect_drives dm w = (w, Raises (il_error "Node IDs cannot be the same.")).
Proof.
  intros Hd Hc Hl Hr. unfold Operations.connect_drives.
  rewrite Hd, Hc. rewrite decide_False by (intros H; by apply H).
  rewrite decide_True by congruence. done.
Qed.

Lemma call_then_configure c drive config (w : world mc) :
  let configure :=
    match config with
    | Some config => [load_configuration config drive]
    | None => []
    end in
  let r := bind mc (call mc c)
             (fun _ => match config with
                       | Some config =>
                           bind mc (call mc (load_configuration config drive))
                                (fun _ => ret mc tt)
                       | None => ret mc tt
                       end) w in
  svc r.1 = svc w
  /\ exists l,
       calls r.1 = calls w ++ l
       /\ l `prefix_of` c :: configure
       /\ match r.2 with
          | Returns _ => l = c :: configure
          | Raises e => exists c h, (perform mc c h).2 = Raises e
          end.
Proof.
  intros configure r. subst configure r. unfold bind, call, ret.
  destruct (perform mc c (hw w)) as [h [v|e]] eqn:Hperf; simpl.
  - destruct config as [config|]; simpl.
    + destruct (perform mc (load_configuration config drive) h)
        as [h' [v'|e']] eqn:Hperf'; simpl.
      * split; [done|]. eexists. split; [by rewrite <- app_assoc|]. done.
      * split; [done|]. eexists. split; [by rewrite <- app_assoc|].
        split; [done|]. exists (load_configuration config drive), h.
        by rewrite Hperf'.
    + split; [done|]. by eexists.
  - split; [done|]. exists [c]. split_and!; [done | | ].
    + by apply prefix_cons, prefix_nil.
    + exists c, (hw w). by rewrite Hperf.
Qed.

Lemma connect_one_calls dm dict entry (w : world mc) :
  connection (base dm) = CANopen \/ connection (base dm) = EtherCAT ->
  let r := connect_one dm dict entry w in
  svc r.1 = svc w
  /\ exists l,
       calls r.1 = calls w ++ l
       /\ l `prefix_of` expected_calls_one dm dict entry
       /\ match r.2 with
          | Returns _ => l = expected_calls_one dm dict entry
          | Raises e => exists c h, (perform mc c h).2 = Raises e
          end.
Proof.
  intros Hp r. subst r. destruct entry as [[drive id] config].
  unfold Operations.connect_one, Operations.expected_calls_one,
    Operations.connect_call.
  destruct id as [id|]; [|split; [done|]; exists []; by rewrite app_nil_r].
  destruct Hp as [-> | ->]; apply call_then_configure.
Qed.

Lemma for_each_connect_calls dm dict entries : forall (w : world mc),
  connection (base dm) = CANopen \/ connection (base dm) = EtherCAT ->
  let r := for_each mc entries (connect_one dm dict) w in
  svc r.1 = svc w
  /\ exists l,
       calls r.1 = calls w ++ l
       /\ l `prefix_of` flat_map (expected_calls_one dm dict) entries
       /\ match r.2 with
          | Returns _ => l = flat_map (expected_calls_one dm dict) entries
          | Raises e => exists c h, (perform mc c h).2 = Raises e
          end.
Proof.
  induction entries as [|entry entries IH]; intros w Hp.
  - simpl. split; [done|]. exists []. by rewrite app_nil_r.
  - simpl. unfold bind.
    destruct (connect_one_calls dm dict entry w Hp) as (Hs & l & Hl & Hpre & Hr).
    destruct (connect_one dm dict entry w) as [w1 [[]|e]]; simpl in *.
    + subst l. destruct (IH w1 Hp) as (Hs' & l' & Hl' & Hpre' & Hr').
      split; [congruence|].
      exists (expected_calls_one dm dict entry ++ l'). split_and!.
      * by rewrite Hl', Hl, app_assoc.
      * by apply prefix_app.
      * destruct (for_each mc entries (connect_one dm dict) w1).2;
          [by subst l' | done].
    + split; [done|]. exists l. split_and!; [done | | done].
      by apply prefix_app_r.
Qed.

(** X12: when the checks pass, [connect_drives] works through the drives
    in the order left, right: for each drive that has a node id, one
    connection call of the protocol under the drive's name as alias, then
    one [load_configuration] if the drive has a configuration.  The calls
    made are a prefix of that list, and all of it when the closure returns;
    when it raises, the exception is one that a call on the handle raised
    (the connection is CANopen or EtherCAT, so the loop's own "not
    implemented" branch is out of reach), and the service is never
    touched. *)
Theorem connect_drives_calls dm (w : world mc) :
  valid dm = true ->
  let r := connect_drives dm w in
  (connection (base dm) = CANopen \/ connection (base dm) = EtherCAT)
  /\ svc r.1 = svc w
  /\ exists l,
       calls r.1 = calls w ++ l
       /\ l `prefix_of` expected_calls dm
       /\ match r.2 with
          | Returns _ => l = expected_calls dm
          | Raises e => exists c h, (perform mc c h).2 = Raises e
          end.
Proof.
  intros Hv r. subst r.
  destruct (valid_true dm Hv) as (Hd & Hc & Hid & Hp).
  unfold Operations.connect_drives. rewrite Hd, Hc.
  rewrite decide_False by (intros H; by apply H).
  rewrite decide_False by done.
  split; [exact Hp|]. by apply for_each_connect_calls.
Qed.

(** X13: whatever [connect_drives] raises on its own account is a failure
    the worker handles: an exception that is not one comes from [ET.parse]
    on the dictionary (a file that is not well-formed XML, say) or from
    the handle. *)
Theorem connect_drives_failures dm (w w' : world mc) e :
  connect_drives dm w = (w', Raises e) ->
  isinstance e DOMAIN_FAILURES = true
  \/ (exists filepath, parse filepath = Fails e)
  \/ (exists c h, (perform mc c h).2 = Raises e).
Proof.
  unfold Operations.connect_drives, raise.
  destruct (no_dictionary (dictionary dm)); [intros [= _ <-]; by left|].
  pose proof (check_dictionary_format_cases (default "" (dictionary dm)))
    as Ho.
  destruct (check_dictionary_format (default "" (dictionary dm)))
    as [p|e'] eqn:Hchk.
  - destruct (decide (p <> connection (base dm))) as [|Heq];
      [intros [= _ <-]; by left|].
    apply dec_stable in Heq.
    destruct (decide (left_id dm = right_id dm));
      [intros [= _ <-]; by left|].
    intros H.
    assert (Hp : connection (base dm) = CANopen
                 \/ connection (base dm) = EtherCAT).
    { subst p. destruct (parse (default "" (dictionary dm))); [done|].
      destruct (connection (base dm)); [by left | by right | done]. }
    destruct (for_each_connect_calls dm (default "" (dictionary dm))
                (drive_entries dm) w Hp) as (_ & l & _ & _ & Hr).
    rewrite H in Hr. by right; right.
  - intros [= _ <-].
    destruct (parse (default "" (dictionary dm))) as [e0|device] eqn:Hparse.
    + right; left. exists (default "" (dictionary dm)).
      rewrite Hparse. congruence.
    + left. by destruct Ho as (_ & Hi & _).
Qed.

(** *** [scan_servos] *)

(** X14: [scan_servos] makes at most one call on the handle, the scan of
    the model's protocol, and never touches the service.  When it returns,
    the list is the one the handle returned, unchanged, and it has at least
    [minimum_nodes] entries; what it raises itself (too few nodes, a
    protocol without scan) is an [ILError]. *)
Theorem scan_servos_outcomes bm minimum_nodes (w : world mc) :
  let r := scan_servos bm minimum_nodes w in
  svc r.1 = svc w
  /\ (calls r.1 = calls w \/ exists c, calls r.1 = calls w ++ [c])
  /\ match r.2 with
     | Returns l =>
         minimum_nodes <= Z.of_nat (length l)
         /\ exists c, calls r.1 = calls w ++ [c]
                      /\ perform mc c (hw w) = (hw r.1, Returns l)
     | Raises e =>
         (exc_type e = ILError /\ isinstance e DOMAIN_FAILURES = true)
         \/ exists c h, (perform mc c h).2 = Raises e
     end.
Proof.
  intros r. subst r. unfold Operations.scan_servos, bind, call, raise, ret.
  destruct (connection bm); simpl;
    try (split_and!; [done | by left | by left]).
  - destruct (perform mc _ (hw w)) as [h [l|e]] eqn:Hperf; simpl.
    + destruct (Z.ltb_spec (Z.of_nat (length l)) minimum_nodes); simpl;
        split_and!; try done; try (right; by eexists);
        [by left | by eexists].
    + split_and!; [done | right; by eexists |].
      right. do 2 eexists. by rewrite Hperf.
  - destruct (perform mc _ (hw w)) as [h [l|e]] eqn:Hperf; simpl.
    + destruct (Z.ltb_spec (Z.of_nat (length l)) minimum_nodes); simpl;
        split_and!; try done; try (right; by eexists);
        [by left | by eexists].
    + split_and!; [done | right; by eexists |].
      right. do 2 eexists. by rewrite Hperf.
Qed.

(** *** [disconnect_drives] *)

Lemma PollerThread_stop_stopped p :
  isRunning p = false -> PollerThread_stop p = p.
Proof. destruct p. simpl. by intros ->. Qed.

Lemma stop_poller_lookup a (w : world mc) :
  let r := stop_poller mc a w in
  r.2 = Returns tt
  /\ hw r.1 = hw w /\ calls r.1 = calls w
  /\ motion_controller_thread (svc r.1) = motion_controller_thread (svc w)
  /\ forall b, poller_threads (svc r.1) !! b
               = (fun p => if bool_decide (b = a) then PollerThread_stop p
                           else p) <$> poller_threads (svc w) !! b.
Proof.
  intros r. subst r. unfold stop_poller.
  rewrite stop_poller_thread_eq. simpl.
  destruct (poller_threads (svc w) !! a) as [p|] eqn:Hp.
  - destruct (isRunning p) eqn:Hr; simpl; split_and!; try done; intros b.
    + destruct (decide (b = a)) as [->|Hb].
      * by rewrite lookup_insert_eq, Hp, bool_decide_eq_true_2.
      * rewrite lookup_insert_ne by done.
        rewrite bool_decide_eq_false_2 by done.
        by destruct (poller_threads (svc w) !! b).
    + destruct (decide (b = a)) as [->|Hb].
      * rewrite Hp, bool_decide_eq_true_2 by done. simpl.
        by rewrite PollerThread_stop_stopped.
      * rewrite bool_decide_eq_false_2 by done.
        by destruct (poller_threads (svc w) !! b).
  - split_and!; try done. intros b. destruct (decide (b = a)) as [->|Hb].
    + by rewrite Hp.
    + rewrite bool_decide_eq_false_2 by done.
      by destruct (poller_threads (svc w) !! b).
Qed.

Lemma disconnect_loop ss : forall (w : world mc),
  (forall c h, exists v, (perform mc c h).2 = Returns v) ->
  let r := for_each mc ss
             (fun servo w' =>
                if is_alive mc servo (hw w') then
                  bind mc (call mc (motor_disable servo))
                    (fun _ => bind mc (stop_poller mc servo)
                       (fun _ => bind mc (call mc (disconnect servo))
                          (fun _ => ret mc tt))) w'
                else ret mc tt w') w in
  r.2 = Returns tt
  /\ exists l,
       l `sublist_of` ss
       /\ calls r.1
          = calls w ++ flat_map (fun a => [motor_disable a; disconnect a]) l
       /\ (forall b, poller_threads (svc r.1) !! b
                     = (fun p => if bool_decide (b ∈ l)
                                 then PollerThread_stop p else p)
                       <$> poller_threads (svc w) !! b)
       /\ motion_controller_thread (svc r.1)
          = motion_controller_thread (svc w).
Proof.
  induction ss as [|a ss IH]; intros w Hok.
  - simpl. split; [done|]. exists []. split_and!; try done.
    + by rewrite app_nil_r.
    + intros b. by destruct (poller_threads (svc w) !! b).
  - match goal with
    | |- context [for_each mc (a :: ss) ?b w] => set (body := b) in *
    end.
    destruct (is_alive mc a (hw w)) eqn:Halive.
    + destruct (Hok (motor_disable a) (hw w)) as [v1 Hv1].
      destruct (perform mc (motor_disable a) (hw w)) as [h1 r1] eqn:Hp1.
      simpl in Hv1. subst r1.
      set (w1 := Build_world mc h1 (calls w ++ [motor_disable a]) (svc w)).
      assert (E1 : call mc (motor_disable a) w = (w1, Returns v1))
        by (unfold call; by rewrite Hp1).
      destruct (stop_poller_lookup a w1) as (Hr2 & Hh2 & Hc2 & Ht2 & Hl2).
      destruct (stop_poller mc a w1) as [w2 r2] eqn:E2.
      simpl in Hr2, Hh2, Hc2, Ht2, Hl2. subst r2.
      destruct (Hok (disconnect a) (hw w2)) as [v3 Hv3].
      destruct (perform mc (disconnect a) (hw w2)) as [h3 r3] eqn:Hp3.
      simpl in Hv3. subst r3.
      set (w3 := Build_world mc h3 (calls w2 ++ [disconnect a]) (svc w2)).
      assert (E3 : call mc (disconnect a) w2 = (w3, Returns v3))
        by (unfold call; by rewrite Hp3).
      assert (Estep : for_each mc (a :: ss) body w = for_each mc ss body w3).
      { simpl. unfold bind at 1. subst body. cbv beta. rewrite Halive.
        unfold bind. by rewrite E1, E2, E3. }
      rewrite Estep.
      destruct (IH w3 Hok) as (Hr & l & Hsub & Hcalls & Hlook & Hthr).
      fold body in Hr, Hcalls, Hlook, Hthr.
      split; [exact Hr|]. exists (a :: l). split_and!.
      * by apply sublist_skip.
      * rewrite Hcalls. simpl. rewrite Hc2. by rewrite <- !app_assoc.
      * intros b. rewrite Hlook. simpl. rewrite Hl2. unfold w1. simpl.
        destruct (poller_threads (svc w) !! b) as [p|]; [|reflexivity]. simpl.
        f_equal. destruct (decide (b = a)) as [->|Hb].
        -- rewrite (bool_decide_eq_true_2 (a = a)) by done.
           rewrite (bool_decide_eq_true_2 (a ∈ a :: l))
             by (apply elem_of_cons; by left).
           by destruct (bool_decide (a ∈ l)).
        -- rewrite (bool_decide_eq_false_2 (b = a)) by done.
           assert (Hiff : b ∈ a :: l <-> b ∈ l).
           { rewrite elem_of_cons.
             split; [intros [H|H]; [done | exact H] | by right]. }
           by rewrite (bool_decide_ext _ _ Hiff).
      * by rewrite Hthr.
    + assert (Estep : for_each mc (a :: ss) body w = for_each mc ss body w).
      { simpl. unfold bind at 1. subst body. cbv beta. by rewrite Halive. }
      rewrite Estep.
      destruct (IH w Hok) as (Hr & l & Hsub & Hcalls & Hlook & Hthr).
      fold body in Hr, Hcalls, Hlook, Hthr.
      split; [exact Hr|]. exists l. split_and!; try done.
      by apply sublist_cons.
Qed.

(** X15: when no call on the handle raises, [disconnect_drives] returns,
    and what it did is this: for some of the servos of the handle, in their
    order, one [motor_disable] followed by one [disconnect]; the poller registered under the alias of each of them is
    stopped, every other poller is as it was, none is added or removed, and
    the worker thread is not touched. *)
Theorem disconnect_drives_pairs (w : world mc) :
  (forall c h, exists v, (perform mc c h).2 = Returns v) ->
  let r := disconnect_drives mc w in
  r.2 = Returns tt
  /\ exists l,
       l `sublist_of` servos mc (hw w)
       /\ calls r.1
          = calls w ++ flat_map (fun a => [motor_disable a; disconnect a]) l
       /\ (forall b, poller_threads (svc r.1) !! b
                     = (fun p => if bool_decide (b ∈ l)
                                 then PollerThread_stop p else p)
                       <$> poller_threads (svc w) !! b)
       /\ motion_controller_thread (svc r.1)
          = motion_controller_thread (svc w).
Proof. intros Hok. by apply disconnect_loop. Qed.

(** X16: [disconnect_drives] stops at the first failure.  When the motor
    of the first servo cannot be disabled, the exception leaves the closure
    at once: the poller of that servo is not stopped, the servo is not
    disconnected, and no later servo is looked at. *)
Theorem disconnect_drives_stops_at_failure (w : world mc) a rest h e :
  servos mc (hw w) = a :: rest ->
  is_alive mc a (hw w) = true ->
  perform mc (motor_disable a) (hw w) = (h, Raises e) ->
  disconnect_drives mc w
  = (Build_world mc h (calls w ++ [motor_disable a]) (svc w), Raises e).
Proof.
  intros Hs Ha Hp. unfold disconnect_drives. rewrite Hs. simpl.
  unfold bind at 1. rewrite Ha. unfold bind, call. by rewrite Hp.
Qed.

End OperationsFacts.

(** *** The operations on a bench *)

Lemma symbolic_command_resolution_witness :
  resolve sdk "communication.get_register" = Returns (succeed (PyInt 7)).
Proof.
  apply (proj2 (symbolic_command_resolution sdk "communication.get_register"
                  (succeed (PyInt 7)))).
  exists "communication", "get_register",
    ({[ "get_register" := succeed (PyInt 7) ]} : gmap string Action).
  split_and!; [reflexivity | reflexivity | reflexivity
              | vm_compute; reflexivity | vm_compute; reflexivity].
Defined.

Lemma check_dictionary_format_outcomes_witness :
  check_dictionary_format bench_parse "can.xdf" = Returns CANopen
  /\ (exists attrib : gmap string string,
        Some ({[ "Interface" := "CAN" ]} : gmap string string) = Some attrib
        /\ attrib !! "Interface" = Some "CAN").
Proof.
  assert (Hc : check_dictionary_format bench_parse "can.xdf" = Returns CANopen)
    by (vm_compute; reflexivity).
  split; [exact Hc|].
  pose proof (check_dictionary_format_outcomes bench_parse "can.xdf") as H.
  change (bench_parse "can.xdf")
    with (Document (Some ({[ "Interface" := "CAN" ]} : gmap string string)))
    in H.
  rewrite Hc in H. exact H.
Defined.

Lemma connect_drives_checks_first_witness :
  exists e,
    connect_drives bench bench_parse bench_stringify
      (bench_model EtherCAT (Some "can.xdf") (Some 1) None) (bench_world [] ∅)
    = (bench_world [] ∅, Raises e).
Proof.
  apply (connect_drives_checks_first bench bench_parse bench_stringify).
  vm_compute. reflexivity.
Defined.

Lemma connect_drives_without_ids_witness :
  connect_drives bench bench_parse bench_stringify
    (bench_model CANopen (Some "can.xdf") None None) (bench_world [] ∅)
  = (bench_world [] ∅, Raises (il_error "Node IDs cannot be the same.")).
Proof.
  apply (connect_drives_without_ids bench bench_parse bench_stringify);
    [reflexivity | vm_compute; reflexivity | reflexivity | reflexivity].
Defined.

Lemma connect_drives_calls_witness :
  let dm := bench_model CANopen (Some "can.xdf") (Some 1) (Some 2) in
  let r := connect_drives bench bench_parse bench_stringify dm
             (bench_world [] ∅) in
  r.2 = Returns tt
  /\ expected_calls bench_stringify dm
     = [connect_servo_canopen (PyObject "Baudrate_1M") "kvaser" "can.xdf" 1
          "Left";
        load_configuration "left.xcf" "Left";
        connect_servo_canopen (PyObject "Baudrate_1M") "kvaser" "can.xdf" 2
          "Right"]
  /\ exists l, calls r.1 = [] ++ l
               /\ l `prefix_of` expected_calls bench_stringify dm.
Proof.
  intros dm r.
  assert (Hv : valid bench_parse dm = true) by (vm_compute; reflexivity).
  destruct (connect_drives_calls bench bench_parse bench_stringify dm
              (bench_world [] ∅) Hv) as (_ & _ & l & Hl & Hp & _).
  split_and!; [vm_compute; reflexivity | reflexivity |].
  exists l. split; [exact Hl | exact Hp].
Defined.

Lemma connect_drives_failures_witness :
  let e := {| exc_type := ParseError; exc_msg := "broken.xdf" |} in
  isinstance e DOMAIN_FAILURES = false
  /\ (isinstance e DOMAIN_FAILURES = true
      \/ (exists filepath, bench_parse filepath = Fails e)
      \/ (exists c h, (perform bench c h).2 = Raises e)).
Proof.
  intros e. split; [reflexivity|].
  apply (connect_drives_failures bench bench_parse bench_stringify
           (bench_model CANopen (Some "broken.xdf") (Some 1) (Some 2))
           (bench_world [] ∅) (bench_world [] ∅)).
  vm_compute. reflexivity.
Defined.

Lemma calm_never_raises c h : exists v, (perform calm c h).2 = Returns v.
Proof. destruct c; by eexists. Qed.

Lemma disconnect_drives_pairs_witness :
  let w := calm_world ["Left"; "Dead"; "Right"]
             {[ "Left" := running_poller "Left";
                "Dead" := running_poller "Dead" ]} in
  let r := disconnect_drives calm w in
  r.2 = Returns tt
  /\ calls r.1 = [motor_disable "Left"; disconnect "Left";
                  motor_disable "Right"; disconnect "Right"]
  /\ isRunning <$> poller_threads (svc r.1) !! "Left" = Some false
  /\ isRunning <$> poller_threads (svc r.1) !! "Dead" = Some true
  /\ exists l,
       l `sublist_of` ["Left"; "Dead"; "Right"]
       /\ calls r.1
          = [] ++ flat_map (fun a => [motor_disable a; disconnect a]) l.
Proof.
  intros w r.
  destruct (disconnect_drives_pairs calm w calm_never_raises)
    as (Hr & l & Hsub & Hcalls & _).
  split; [exact Hr|].
  split; [vm_compute; reflexivity|].
  split; [vm_compute; reflexivity|].
  split; [vm_compute; reflexivity|].
  exists l. split; [exact Hsub | exact Hcalls].
Defined.

Lemma disconnect_drives_stops_at_failure_witness :
  let w := bench_world ["Jammed"; "Right"]
             {[ "Jammed" := running_poller "Jammed" ]} in
  let r := disconnect_drives bench w in
  calls r.1 = [motor_disable "Jammed"]
  /\ svc r.1 = svc w
  /\ r.2 = Raises {| exc_type := IMException; exc_msg := "Jammed" |}.
Proof.
  intros w r. subst r.
  rewrite (disconnect_drives_stops_at_failure bench w "Jammed" ["Right"]
             ["Jammed"; "Right"]
             {| exc_type := IMException; exc_msg := "Jammed" |}
             eq_refl eq_refl eq_refl).
  by split_and!.
Defined.
